(** * homebridge-vieramatic: the device-setup pipeline and its cache store

    A shallow embedding of [src/storage.ts] (class [Storage]) and of
    [src/platform.ts] (class [VieramaticPlatform]), with the properties
    the specification states about them.

    Definitions
    - [JSObject]: string-keyed JavaScript objects with their own-property
      enumeration order (what [Object.entries] walks).
    - The data model ([VieraSpecs], [OnDisk], [UserConfig], [Outcome], ...).
    - [Json], [Disk]: the cache document, and how the typed data is
      written to it and read back.
    - [Storage]: constructor, [get] and [save], over an explicit disk.
    - [Prog]: the effects of the platform code (device calls, host calls,
      logging, reads and writes of the shared store) as a tree of
      commands.
    - The platform code: [deviceSetupPreFlight], [knownWorking],
      [deviceSetup] (in its three stages), [discoverDevices].
    - Running it: [exec] runs one piece of code from start to end, [run]
      runs the tasks of a discovery cycle interleaved.
    - [Demo]: concrete helpers, televisions and declarations.

    Theorems
    - facts about objects, the cache document, programs and runs;
    - the store: [Storage_get_materializes], [save_then_load_roundtrip],
      restart, idempotence and growth of [get];
    - the cache scan: [knownWorking_first_match];
    - the setup pipeline: [invalid_declaration_rejected_before_io],
      [specs_resolution_cases], [missing_credentials_stop_before_negotiation],
      [encrypted_success_needs_session], [first_time_initialisation],
      [name_override_follows_gate];
    - the discovery cycle: [discovery_isolates_devices], and what holds
      of a task wherever the schedule stops;
    - the theorems at the inputs of [Demo].

    What is taken from outside the two files: the helpers [isIPv4],
    [isValidMACAddress], [printf] and [JSON.stringify] are parameters
    ([Helpers]); the device layer is a parameter ([Network]); the
    interfaces declared in [viera.ts] and [accessory.ts] are given by the
    fields the two files use. *)

From Stdlib Require Import String Ascii List ZArith NArith Lia Bool DecimalString.
From stdpp Require Import base gmap strings.
Import ListNotations.
Local Open Scope string_scope.
Local Open Scope list_scope.

Set Implicit Arguments.

(* ===================================================================== *)
(** ** JavaScript objects as ordered property lists *)
(* ===================================================================== *)

(** A plain object used as a dictionary ([Record<string, T>]).  The list is
    the object's own properties in enumeration order: keys that are array
    indices come first, in ascending numeric order, and every other key
    follows in the order it was first written.  The object is an ordinary
    one (an object literal, or what [JSON.parse] builds): a property it
    does not have itself is looked for on [Object.prototype]. *)
Module JSObject.

Definition t (V : Type) : Type := list (string * V).

(** The members of [Object.prototype]. *)
Definition inheritedNames : list string :=
  ["constructor"; "__defineGetter__"; "__defineSetter__"; "hasOwnProperty";
   "__lookupGetter__"; "__lookupSetter__"; "isPrototypeOf";
   "propertyIsEnumerable"; "toString"; "valueOf"; "__proto__";
   "toLocaleString"].

Definition inherited (k : string) : bool :=
  existsb (String.eqb k) inheritedNames.

(** What [o[k]] finds: a property of the object itself, or a member of
    [Object.prototype] (a function, or for [__proto__] the prototype
    object; never [null] or [undefined]). *)
Inductive found (V : Type) : Type :=
| Own (v : V)
| Inherited (name : string).
Arguments Own {V} v.
Arguments Inherited {V} name.

(** An array index is the canonical decimal spelling of an integer in
    [0, 2^32 - 2]. *)
Definition array_index (k : string) : option N :=
  match NilZero.uint_of_string k with
  | Some d =>
      let n := N.of_uint d in
      if (String.eqb (NilZero.string_of_uint (N.to_uint n)) k
          && (n <=? 4294967294)%N)%bool
      then Some n else None
  | None => None
  end.

(** [precedes k k'] : a fresh key [k] is enumerated before an existing
    key [k']. *)
Definition precedes (k k' : string) : bool :=
  match array_index k, array_index k' with
  | Some n, Some n' => (n <? n')%N
  | Some _, None => true
  | None, _ => false
  end.

Definition keys {V} (o : t V) : list string := map fst o.

(** The own property [k] of [o]. *)
Fixpoint get {V} (k : string) (o : t V) : option V :=
  match o with
  | [] => None
  | (k', v) :: o' => if String.eqb k k' then Some v else get k o'
  end.

(** [o[k]]: the own property if there is one, the inherited member
    otherwise; [None] is [undefined]. *)
Definition lookup {V} (k : string) (o : t V) : option (found V) :=
  match get k o with
  | Some v => Some (Own v)
  | None => if inherited k then Some (Inherited k) else None
  end.

(** [o[k] = v] *)
Fixpoint set {V} (k : string) (v : V) (o : t V) : t V :=
  match o with
  | [] => [(k, v)]
  | (k', v') :: o' =>
      if String.eqb k k' then (k', v) :: o'
      else if precedes k k' then (k, v) :: (k', v') :: o'
      else (k', v') :: set k v o'
  end.

(** Modelled from the spec: [isEmpty] is defined in [helpers.ts]; an
    object is empty when it has no property of its own ("an empty
    mapping"). *)
Definition isEmpty {V} (o : t V) : bool :=
  match o with [] => true | _ => false end.

(** The shape every object has: no key twice, and no key enumerated
    after one it precedes. *)
Definition after (k k' : string) : Prop :=
  k <> k' /\ precedes k' k = false.

Fixpoint ordered (ks : list string) : Prop :=
  match ks with
  | [] => True
  | k :: ks' => Forall (after k) ks' /\ ordered ks'
  end.

Definition wf {V} (o : t V) : Prop := ordered (keys o).

(** The same, as a test on concrete objects. *)
Fixpoint orderedb (ks : list string) : bool :=
  match ks with
  | [] => true
  | k :: ks' =>
      forallb (fun k' => negb (String.eqb k k') && negb (precedes k' k)) ks'
      && orderedb ks'
  end.

End JSObject.

Arguments JSObject.inherited : simpl never.

(* ===================================================================== *)
(** ** Data model *)
(* ===================================================================== *)

(** Modelled from the spec: [Outcome<T>] is declared in [helpers.ts];
    "either a success carrying a value of type T, or a failure carrying a
    human-readable message".  In the source: [{ value: T }] or
    [{ error: Error }]; the error is kept as its message. *)
Inductive Outcome (T : Type) : Type :=
| value (v : T)
| error (msg : string).
Arguments value {T} v.
Arguments error {T} msg.

(** Modelled from the spec: [Abnormal] is defined in [helpers.ts]; it
    tells the failure variant.  Where the source tests [Abnormal(o)] and
    then reads [o.error] or [o.value], the embedding matches on [o]. *)
Definition Abnormal {T} (o : Outcome T) : bool :=
  match o with error _ => true | value _ => false end.

(** Modelled from the spec: the interface [VieraSpecs] is declared in
    [viera.ts]; "model name, serial number, friendly name, a boolean flag
    requiresEncryption".  Every field is optional, [{}] being a value of
    the type ([knownWorking] returns it); an absent field and a field
    holding [undefined] are both [None]. *)
Module VieraSpecs.
Record t : Type := mk {
  friendlyName : option string;
  modelName : option string;
  serialNumber : option string;
  requiresEncryption : option bool
}.

(** [{}] *)
Definition empty : t := mk None None None None.

(** [isEmpty(specs)], see [JSObject.isEmpty]: the object has no
    property. *)
Definition isEmpty (s : t) : bool :=
  match friendlyName s, modelName s, serialNumber s, requiresEncryption s with
  | None, None, None, None => true
  | _, _, _, _ => false
  end.

(** [specs.friendlyName = name] *)
Definition setFriendlyName (name : option string) (s : t) : t :=
  mk name (modelName s) (serialNumber s) (requiresEncryption s).

(** JavaScript truthiness of [specs.requiresEncryption]. *)
Definition encrypted (s : t) : bool :=
  match requiresEncryption s with Some true => true | _ => false end.
End VieraSpecs.

(** Modelled from the spec: [VieraApps] is declared in [viera.ts]; the
    application list, as the names of the applications. *)
Definition VieraApps : Type := list string.

(** Modelled from the spec: [OnDisk] is declared in [accessory.ts]; a cache
    entry is shaped [{ data: { ipAddress, specs }, apps? }], and [{}] is
    an entry too ([Storage.get] stores it). *)
Module OnDisk.
Record snapshot : Type := mkData {
  ipAddress : string;
  specs : VieraSpecs.t
}.
Record t : Type := mk {
  data : option snapshot;
  apps : option VieraApps
}.

(** [{}] *)
Definition empty : t := mk None None.
End OnDisk.

(** [storage.accessories : Record<string, OnDisk>] *)
Abbreviation Accessories := (JSObject.t OnDisk.t).

(** Modelled from the spec: [UserConfig] is declared in [accessory.ts]; the
    fields below are the ones [platform.ts] reads. *)
Module UserConfig.
Record t : Type := mk {
  ipAddress : string;
  mac : option string;
  appId : option string;
  encKey : option string;
  friendlyName : option string;
  disabledAppSupport : option bool
}.
End UserConfig.

(* ===================================================================== *)
(** ** The cache document *)
(* ===================================================================== *)

Module Json.

(** A parsed JSON text.  An object keeps its members as written. *)
#[warnings="-register-all"]
Inductive t : Type :=
| Null
| Bool (b : bool)
| Number (z : Z)
| Str (s : string)
| Array (items : list t)
| Object (members : list (string * t)).

(** Reading member [k] of a parsed object: the last one written wins. *)
Definition prop (k : string) (j : t) : option t :=
  match j with
  | Object members => JSObject.get k (rev members)
  | _ => None
  end.

Definition to_string (j : t) : option string :=
  match j with Str s => Some s | _ => None end.

Definition to_bool (j : t) : option bool :=
  match j with Bool b => Some b | _ => None end.

(** A member is written only when the field is present
    ([JSON.stringify] skips [undefined]). *)
Definition member {A} (k : string) (enc : A -> t) (o : option A)
  : list (string * t) :=
  match o with Some a => [(k, enc a)] | None => [] end.

(** *** [JSON.stringify] on the typed data *)

Definition of_specs (s : VieraSpecs.t) : t :=
  Object (member "friendlyName" Str (VieraSpecs.friendlyName s)
          ++ member "modelName" Str (VieraSpecs.modelName s)
          ++ member "serialNumber" Str (VieraSpecs.serialNumber s)
          ++ member "requiresEncryption" Bool (VieraSpecs.requiresEncryption s)).

Definition of_snapshot (d : OnDisk.snapshot) : t :=
  Object [("ipAddress", Str (OnDisk.ipAddress d));
          ("specs", of_specs (OnDisk.specs d))].

Definition of_apps (l : VieraApps) : t := Array (map Str l).

Definition of_entry (e : OnDisk.t) : t :=
  Object (member "data" of_snapshot (OnDisk.data e)
          ++ member "apps" of_apps (OnDisk.apps e)).

Definition of_accessories (o : Accessories) : t :=
  Object (map (fun kv => (fst kv, of_entry (snd kv))) o).

(** *** Reading a parsed document at the declared types

    The source casts the parsed document to [Record<string, OnDisk>]
    without looking at it; the readers below take from a document the
    fields the interfaces declare.  A document of another shape has no
    counterpart at these types and is read as far as it fits.  In
    particular a document that is an array, a number, a string or a
    boolean is kept by the constructor as it is ([data ?? {}]); it is
    not a mapping, and [to_accessories] has nothing to say about what
    the store does with it: the theorems about a loaded store are over
    documents that are absent, unreadable, [null] or objects. *)

Definition to_specs (j : t) : VieraSpecs.t :=
  VieraSpecs.mk
    (match prop "friendlyName" j with Some x => to_string x | None => None end)
    (match prop "modelName" j with Some x => to_string x | None => None end)
    (match prop "serialNumber" j with Some x => to_string x | None => None end)
    (match prop "requiresEncryption" j with Some x => to_bool x | None => None end).

Definition to_snapshot (j : t) : option OnDisk.snapshot :=
  match prop "ipAddress" j with
  | Some (Str ip) =>
      Some (OnDisk.mkData ip
              (match prop "specs" j with
               | Some sj => to_specs sj
               | None => VieraSpecs.empty
               end))
  | _ => None
  end.

Definition to_apps (j : t) : option VieraApps :=
  match j with
  | Array items =>
      Some (flat_map (fun x => match x with Str s => [s] | _ => [] end) items)
  | _ => None
  end.

Definition to_entry (j : t) : OnDisk.t :=
  OnDisk.mk
    (match prop "data" j with Some x => to_snapshot x | None => None end)
    (match prop "apps" j with Some x => to_apps x | None => None end).

(** [JSON.parse] creates the members of an object one after the other,
    each by a property write. *)
Definition to_accessories (j : t) : Accessories :=
  match j with
  | Object members =>
      fold_left (fun o kv => JSObject.set (fst kv) (to_entry (snd kv)) o)
                members []
  | _ => []
  end.

End Json.

(** The file system, as far as the store sees it: which paths hold a file,
    and for each file whether its text is JSON (and of what value). *)
Module Disk.
Inductive file : Type :=
| Text (j : Json.t)
| Garbage.

Abbreviation t := (gmap string file).

(** [readJsonSync(path, { throws: false })]: [null] when the file is
    missing or does not parse. *)
Definition readJsonSync (path : string) (d : t) : Json.t :=
  match d !! path with
  | Some (Text j) => j
  | _ => Json.Null
  end.

(** [writeJsonSync(path, obj)], [obj] given by its serialisation. *)
Definition writeJsonSync (path : string) (j : Json.t) (d : t) : t :=
  <[path := Text j]> d.
End Disk.

(* ===================================================================== *)
(** ** [storage.ts] *)
(* ===================================================================== *)

(** The part of the host API the store uses:
    [api.user.cachedAccessoryPath()]. *)
Record API : Type := { cachedAccessoryPath : string }.

(** [path.join(dir, name)], for a directory path without a trailing
    separator. *)
Definition path_join (dir name : string) : string := dir ++ "/" ++ name.

Module Storage.

(** The fields of a [Storage] object. *)
Record t : Type := mk {
  accessories : Accessories;
  filePath : string
}.

(** What a method of the class can touch: the object and the disk. *)
Record env : Type := mkEnv {
  this : t;
  disk : Disk.t
}.

(** [new Storage(api)] *)
Definition new (api : API) (d : Disk.t) : env :=
  let filePath := path_join (cachedAccessoryPath api) "vieramatic.json" in
  let data := Disk.readJsonSync filePath d in
  (* this.accessories = data ?? {} *)
  let accessories :=
    match data with
    | Json.Null => []
    | _ => Json.to_accessories data
    end in
  mkEnv (mk accessories filePath) d.

(** [get(id)].  Both lines read [this.accessories[id]], which finds
    inherited members too: for such a name the test [== null] fails,
    nothing is stored, and what is returned is the inherited member. *)
Definition get (id : string) (e : env) : JSObject.found OnDisk.t * env :=
  let e1 :=
    match JSObject.lookup id (accessories (this e)) with
    | None =>
        mkEnv (mk (JSObject.set id OnDisk.empty (accessories (this e)))
                  (filePath (this e)))
              (disk e)
    | Some _ => e
    end in
  (match JSObject.lookup id (accessories (this e1)) with
   | Some entry => entry
   | None => JSObject.Own OnDisk.empty
   end, e1).

(** [save()] *)
Definition save (e : env) : env :=
  mkEnv (this e)
        (Disk.writeJsonSync (filePath (this e))
                            (Json.of_accessories (accessories (this e)))
                            (disk e)).

End Storage.

(* ===================================================================== *)
(** ** What [platform.ts] takes from elsewhere *)
(* ===================================================================== *)

(** A value handed to [printf] or to the logger. *)
Inductive Arg : Type :=
| AStr (s : string)
| AOpt (s : option string)        (* a string that may be [undefined] *)
| ABool (b : bool)
| ASpecs (s : VieraSpecs.t).

(** The pure helpers the platform imports: [isIPv4] from node's [net],
    [isValidMACAddress] and [printf] from [helpers.ts], and
    [JSON.stringify] at the two types it is used at.  The platform code is
    embedded over any choice of them. *)
Class Helpers : Type := {
  isIPv4 : string -> bool;
  isValidMACAddress : string -> bool;
  printf : string -> list Arg -> string;
  stringifyDevice : UserConfig.t -> string;
  stringifyAccessories : Accessories -> string
}.

(** A [VieraSpecs] object as the platform holds it: its fields, and, when
    the object is the [data.specs] of a cache entry, the key of that
    entry.  [knownWorking] hands out the stored object itself, so the
    write to [tv.specs.friendlyName] at line 173 is a write to the store
    too ([WriteCachedName] below).  The fields are the ones the holder
    read; a write that another task makes to the same stored object in
    the meantime (two declarations for one address, both falling back to
    the cache) does not show in them. *)
Record SpecsObj : Type := mkObj {
  owner : option string;
  fields :> VieraSpecs.t
}.

(** Modelled from the spec: the class [VieraTV] is defined in [viera.ts];
    here are the fields [platform.ts] reads and writes.  What else a
    television object holds (derived keys, the session) is state of the
    device layer. *)
Module VieraTV.
Record t : Type := mk {
  address : string;
  mac : option string;
  specs : SpecsObj;
  auth_appId : option string;
  auth_key : option string
}.

(** [new VieraTV(ip, log, mac)] *)
Definition new (ip : string) (mac : option string) : t :=
  mk ip mac (mkObj None VieraSpecs.empty) None None.

(** [tv.specs = s] *)
Definition setSpecs (s : SpecsObj) (tv : t) : t :=
  mk (address tv) (mac tv) s (auth_appId tv) (auth_key tv).

(** [tv.auth.appId = appId; tv.auth.key = key] *)
Definition setAuth (appId key : string) (tv : t) : t :=
  mk (address tv) (mac tv) (specs tv) (Some appId) (Some key).

(** [tv.specs.friendlyName = name] *)
Definition setFriendlyName (name : option string) (tv : t) : t :=
  setSpecs (mkObj (owner (specs tv))
                  (VieraSpecs.setFriendlyName name (specs tv))) tv.
End VieraTV.

(** The host's accessory object: [new api.platformAccessory(displayName,
    UUID, category)], with [context.device].  The constructor is the
    host's; the object is given by the arguments it is built from, and
    what the host checks of them is not part of the two files. *)
Inductive Category : Type := TELEVISION | OTHER.

Record PlatformAccessory : Type := mkAccessory {
  displayName : option string;
  UUID : option string;
  category : Category;
  context_device : option VieraTV.t
}.

(** [new VieramaticPlatformAccessory(platform, accessory, device, apps)]:
    the arguments it is built from (the platform is the one there is). *)
Record VieramaticPlatformAccessory : Type := mkVieramatic {
  accessory : PlatformAccessory;
  userConfig : UserConfig.t;
  vapps : VieraApps
}.

(* ===================================================================== *)
(** ** Effects *)
(* ===================================================================== *)

Inductive Level : Type := LvlDebug | LvlInfo | LvlWarn | LvlError.

(** Everything the platform code does to the world around it. *)
Inductive Cmd : Type :=
| LivenessProbe (ip : string)                       (* VieraTV.livenessProbe(ip) *)
| GetSpecs (tv : VieraTV.t)                         (* tv.getSpecs() *)
| DeriveSessionKey (tv : VieraTV.t) (key : string)  (* tv.deriveSessionKey(key) *)
| RequestSessionId (tv : VieraTV.t)                 (* tv.requestSessionId() *)
| IsTurnedOn (tv : VieraTV.t)                       (* tv.isTurnedOn() *)
| GetApps (tv : VieraTV.t)                          (* tv.getApps() *)
| ReadAccessories                                   (* this.storage.accessories *)
| WriteCachedName (key : string) (name : option string)
    (* accessories[key].data.specs.friendlyName = name *)
| Log (lvl : Level) (args : list Arg)               (* this.log.<lvl>(...args) *)
| PublishExternalAccessories (a : PlatformAccessory)
| UnregisterPlatformAccessories (a : PlatformAccessory)
| WebSetup.                                         (* VieraTV.webSetup(this) *)

(** What the caller gets back. *)
Definition Resp (c : Cmd) : Type :=
  match c with
  | LivenessProbe _ => bool
  | GetSpecs _ => VieraSpecs.t
  | RequestSessionId _ => Outcome unit
  | IsTurnedOn _ => bool
  | GetApps _ => Outcome VieraApps
  | ReadAccessories => Accessories
  | DeriveSessionKey _ _ | WriteCachedName _ _ | Log _ _
  | PublishExternalAccessories _ | UnregisterPlatformAccessories _
  | WebSetup => unit
  end.

(** A command together with its answer, as it shows in a trace. *)
Inductive Event : Type :=
| EvLivenessProbe (ip : string) (reachable : bool)
| EvGetSpecs (tv : VieraTV.t) (specs : VieraSpecs.t)
| EvDeriveSessionKey (tv : VieraTV.t) (key : string)
| EvRequestSessionId (tv : VieraTV.t) (result : Outcome unit)
| EvIsTurnedOn (tv : VieraTV.t) (status : bool)
| EvGetApps (tv : VieraTV.t) (result : Outcome VieraApps)
| EvReadAccessories (m : Accessories)
| EvWriteCachedName (key : string) (name : option string)
| EvLog (lvl : Level) (args : list Arg)
| EvPublish (a : PlatformAccessory)
| EvUnregister (a : PlatformAccessory)
| EvWebSetup.

Definition event (c : Cmd) : Resp c -> Event :=
  match c as c0 return Resp c0 -> Event with
  | LivenessProbe ip => EvLivenessProbe ip
  | GetSpecs tv => EvGetSpecs tv
  | DeriveSessionKey tv key => fun _ => EvDeriveSessionKey tv key
  | RequestSessionId tv => EvRequestSessionId tv
  | IsTurnedOn tv => EvIsTurnedOn tv
  | GetApps tv => EvGetApps tv
  | ReadAccessories => EvReadAccessories
  | WriteCachedName key name => fun _ => EvWriteCachedName key name
  | Log lvl args => fun _ => EvLog lvl args
  | PublishExternalAccessories a => fun _ => EvPublish a
  | UnregisterPlatformAccessories a => fun _ => EvUnregister a
  | WebSetup => fun _ => EvWebSetup
  end.

(** The command an event records. *)
Definition command (e : Event) : Cmd :=
  match e with
  | EvLivenessProbe ip _ => LivenessProbe ip
  | EvGetSpecs tv _ => GetSpecs tv
  | EvDeriveSessionKey tv key => DeriveSessionKey tv key
  | EvRequestSessionId tv _ => RequestSessionId tv
  | EvIsTurnedOn tv _ => IsTurnedOn tv
  | EvGetApps tv _ => GetApps tv
  | EvReadAccessories _ => ReadAccessories
  | EvWriteCachedName key name => WriteCachedName key name
  | EvLog lvl args => Log lvl args
  | EvPublish a => PublishExternalAccessories a
  | EvUnregister a => UnregisterPlatformAccessories a
  | EvWebSetup => WebSetup
  end.

(** A call over the network to the television (or to find it). *)
Definition is_network_call (c : Cmd) : bool :=
  match c with
  | LivenessProbe _ | GetSpecs _ | RequestSessionId _ | IsTurnedOn _
  | GetApps _ => true
  | _ => false
  end.

(** A step of the encrypted-session negotiation. *)
Definition is_negotiation (c : Cmd) : bool :=
  match c with
  | DeriveSessionKey _ _ | RequestSessionId _ => true
  | _ => false
  end.

Definition is_publish (c : Cmd) : bool :=
  match c with PublishExternalAccessories _ => true | _ => false end.

(** How a piece of code ends: it returns, or an exception escapes it (for
    an [async] function: its promise is fulfilled or rejected). *)
Inductive Result (A : Type) : Type :=
| Returned (a : A)
| Thrown (e : string).
Arguments Returned {A} a.
Arguments Thrown {A} e.

(** Code with effects: it is done, or it issues a command and goes on
    with the answer. *)
Inductive Prog (A : Type) : Type :=
| Ret (a : A)
| Throw (e : string)
| Vis (c : Cmd) (k : Resp c -> Prog A).
Arguments Ret {A} a.
Arguments Throw {A} e.
Arguments Vis {A} c k.

Fixpoint bind {A B} (p : Prog A) (f : A -> Prog B) : Prog B :=
  match p with
  | Ret a => f a
  | Throw e => Throw e
  | Vis c k => Vis c (fun r => bind (k r) f)
  end.

Definition call (c : Cmd) : Prog (Resp c) := Vis c Ret.

Declare Scope prog_scope.
Delimit Scope prog_scope with prog.
Notation "x <- p ;; q" := (bind p (fun x => q))
  (at level 20, p at level 99, q at level 200, only parsing) : prog_scope.
Notation "p ;; q" := (bind p (fun _ => q))
  (at level 100, q at level 200, only parsing, right associativity) : prog_scope.
Local Open Scope prog_scope.

(** Sequencing of fallible stages: stop at the first failure. *)
Definition andThen {A B} (p : Prog (Outcome A)) (f : A -> Prog (Outcome B))
  : Prog (Outcome B) :=
  o <- p ;;
  match o with
  | error msg => Ret (error msg)
  | value a => f a
  end.

(** [for (const x of l) body(x)] *)
Fixpoint forEach {A} (l : list A) (body : A -> Prog unit) : Prog unit :=
  match l with
  | [] => Ret tt
  | x :: l' => body x ;; forEach l' body
  end.

(* ===================================================================== *)
(** ** [platform.ts] *)
(* ===================================================================== *)

(** The line feed the source writes as a backslash followed by n. *)
Definition nl : string := String (ascii_of_nat 10) EmptyString.

(** [accessories[key]] with a key that may be [undefined]: the key is
    converted to a string first. *)
Definition propertyKey (key : option string) : string :=
  match key with Some k => k | None => "undefined" end.

(** [a ?? b] *)
Definition nullish {A} (a b : option A) : option A :=
  match a with Some _ => a | None => b end.

(** The cached accessories the host handed back at start-up
    ([configureAccessory]) and the declared devices ([config.tvs]). *)
Record Platform : Type := mkPlatform {
  accessories : list PlatformAccessory;
  tvs : list UserConfig.t
}.

Section PlatformCode.
Context {helpers : Helpers}.

(** *** The messages, as the source builds them with [printf] *)

(** Lines 71-75. *)
Definition msgInvalidAddress (device : UserConfig.t) (raw : string) : string :=
  printf ("IGNORING '%s' as it is not a valid ip address." ++ nl ++ nl ++ "%s")
         [AStr (UserConfig.ipAddress device); AStr raw].

(** Lines 80-85. *)
Definition msgInvalidMAC (device : UserConfig.t) (mac raw : string) : string :=
  printf ("IGNORING '%s' as it has an invalid MAC address: '%s'"
          ++ nl ++ nl ++ "%s")
         [AStr (UserConfig.ipAddress device); AStr mac; AStr raw].

(** Lines 118-123. *)
Definition msgUnreachable (ip : string) : string :=
  printf "IGNORING '%s' as it is not reachable, and we can't relay on cached data"
         [AStr ip;
          AStr ("as it seems that it was never ever seen and setup before."
                ++ nl ++ nl);
          AStr "Please make sure that your TV is powered ON and connected to the network."].

(** Lines 137-141. *)
Definition msgOffline (ip : string) : string :=
  printf "IGNORING '%s' as we do not support offline initialization, "
         [AStr ip; AStr "from cache, for models that require encryption."].

(** Lines 148-153. *)
Definition msgNoCredentials (ip : string) (tv : VieraTV.t) : string :=
  printf "IGNORING '%s' as it is from a Panasonic TV that requires"
         [AStr ip;
          AStr "encryption '%s' and no valid credentials were supplied.";
          AOpt (VieraSpecs.modelName (VieraTV.specs tv))].

(** Lines 164-169. *)
Definition msgBadCredentials (ip : string) (tv : VieraTV.t) (reason : string)
  : string :=
  printf ("IGNORING '%s' ('%s') as no working credentials were supplied."
          ++ nl ++ nl)
         [AStr ip; AOpt (VieraSpecs.modelName (VieraTV.specs tv)); AStr reason].

(** Lines 190-194. *)
Definition msgStandby (tv : VieraTV.t) : string :=
  printf ("Unable to finish initial setup of %s." ++ nl ++ nl)
         [AOpt (VieraSpecs.friendlyName (VieraTV.specs tv));
          AStr "Please make sure that this TV is powered ON and NOT in stand-by."].

(** Line 201. *)
Definition msgNoApps (reason : string) : string :=
  printf ("unable to fetch Apps list from the TV:" ++ nl ++ nl) [AStr reason].

(** *** The log lines *)

(** Line 101. *)
Definition logHandling (device : UserConfig.t) : list Arg :=
  [AStr "handling '%s' from config.json"; AStr (UserConfig.ipAddress device)].

(** Lines 110-117. *)
Definition logUnreachable (cached : VieraSpecs.t) (reachable : bool)
  (all : Accessories) : list Arg :=
  [AStr "cached:"; ASpecs cached;
   AStr (nl ++ "reachable:"); ABool reachable;
   AStr (nl ++ "all Known:" ++ nl);
   AStr (stringifyAccessories all)].

(** Lines 131-135. *)
Definition logUsingCache (ip : string) (cached : VieraSpecs.t) : list Arg :=
  [AStr ("WARNING: unable to fetch specs from TV at '%s'. Using the previously cached ones: "
         ++ nl ++ nl ++ "%s");
   AStr ip; ASpecs cached].

(** Line 187. *)
Definition logFirstTime (tv : VieraTV.t) : list Arg :=
  [AStr "Initializing '%s' first time ever.";
   AOpt (VieraSpecs.friendlyName (VieraTV.specs tv))].

(** Line 58. *)
Definition logRejected (msg : string) : list Arg := [AStr msg].

(** Line 64. *)
Definition logLoaded (a : PlatformAccessory) : list Arg :=
  [AStr "successfully loaded"; AOpt (displayName a)].

(** *** The code *)

(** [deviceSetupPreFlight(device)], lines 68-89. *)
Definition deviceSetupPreFlight (device : UserConfig.t) : Outcome unit :=
  let raw := stringifyDevice device in
  if negb (isIPv4 (UserConfig.ipAddress device)) then
    let msg := msgInvalidAddress device raw in
    error msg
  else
    match UserConfig.mac device with
    | Some mac =>
        if negb (isValidMACAddress mac) then
          let msg := msgInvalidMAC device mac raw in
          error msg
        else value tt
    | None => value tt
    end.

(** The loop of [knownWorking], lines 94-95: the first entry stored
    under address [ip], with its key.  Reading [v.data.ipAddress] of an
    entry without [data] throws. *)
Fixpoint firstAt (ip : string) (entries : Accessories)
  : Result (option (string * VieraSpecs.t)) :=
  match entries with
  | [] => Returned None
  | (k, v) :: rest =>
      match OnDisk.data v with
      | None =>
          Thrown "TypeError: Cannot read properties of undefined (reading 'ipAddress')"
      | Some d =>
          if String.eqb (OnDisk.ipAddress d) ip
          then Returned (Some (k, OnDisk.specs d))
          else firstAt ip rest
      end
  end.

(** [knownWorking(ip)], lines 91-98, over the mapping it reads.  The
    specs of a matching entry are the stored object; [{}] is a fresh
    one. *)
Definition knownWorking (accessories : Accessories) (ip : string)
  : Result SpecsObj :=
  if JSObject.isEmpty accessories then Returned (mkObj None VieraSpecs.empty)
  else
    match firstAt ip accessories with
    | Thrown e => Thrown e
    | Returned (Some (k, s)) => Returned (mkObj (Some k) s)
    | Returned None => Returned (mkObj None VieraSpecs.empty)
    end.

(** [deviceSetup], lines 107-145: probe, cache lookup, live specs and
    the fall-back to the cache.  On success the television object with
    [tv.specs] set. *)
Definition resolveSpecs (device : UserConfig.t) : Prog (Outcome VieraTV.t) :=
  let ip := UserConfig.ipAddress device in
  reachable <- call (LivenessProbe ip) ;;
  known <- call ReadAccessories ;;
  match knownWorking known ip with
  | Thrown e => Throw e
  | Returned cached =>
      if negb reachable && VieraSpecs.isEmpty cached then
        all <- call ReadAccessories ;;
        call (Log LvlError (logUnreachable cached reachable all)) ;;
        let msg := msgUnreachable ip in
        Ret (error msg)
      else
        let tv := VieraTV.new ip (UserConfig.mac device) in
        specs <- call (GetSpecs tv) ;;
        refused <-
          (if VieraSpecs.isEmpty specs then
             call (Log LvlWarn (logUsingCache ip cached)) ;;
             Ret (VieraSpecs.encrypted cached)
           else Ret false) ;;
        if refused then
          let msg := msgOffline ip in
          Ret (error msg)
        else
          Ret (value (VieraTV.setSpecs
                        (if VieraSpecs.isEmpty specs then cached
                         else mkObj None specs) tv))
  end.

(** [deviceSetup], lines 146-172: the encryption gate. *)
Definition encryptionGate (device : UserConfig.t) (tv : VieraTV.t)
  : Prog (Outcome VieraTV.t) :=
  let ip := UserConfig.ipAddress device in
  if VieraSpecs.encrypted (VieraTV.specs tv) then
    match UserConfig.appId device, UserConfig.encKey device with
    | Some appId, Some encKey =>
        let tv := VieraTV.setAuth appId encKey tv in
        call (DeriveSessionKey tv encKey) ;;
        result <- call (RequestSessionId tv) ;;
        match result with
        | error reason =>
            let msg := msgBadCredentials ip tv reason in
            Ret (error msg)
        | value _ => Ret (value tv)
        end
    | _, _ =>
        let msg := msgNoCredentials ip tv in
        Ret (error msg)
    end
  else Ret (value tv).

(** [deviceSetup], lines 173-211: the name override, the accessory, and
    the first-time initialisation. *)
Definition finishSetup (device : UserConfig.t) (tv : VieraTV.t)
  : Prog (Outcome VieramaticPlatformAccessory) :=
  let name :=
    nullish (UserConfig.friendlyName device)
            (VieraSpecs.friendlyName (VieraTV.specs tv)) in
  (match owner (VieraTV.specs tv) with
   | Some key => call (WriteCachedName key name)
   | None => Ret tt
   end) ;;
  let tv := VieraTV.setFriendlyName name tv in
  let accessory :=
    mkAccessory (VieraSpecs.friendlyName (VieraTV.specs tv))
                (VieraSpecs.serialNumber (VieraTV.specs tv))
                TELEVISION (Some tv) in
  stored <- call ReadAccessories ;;
  if JSObject.isEmpty stored
     || match JSObject.lookup
                (propertyKey (VieraSpecs.serialNumber (VieraTV.specs tv)))
                stored with
        | None => true
        | Some _ => false
        end
  then
    call (Log LvlInfo (logFirstTime tv)) ;;
    status <- call (IsTurnedOn tv) ;;
    if negb status then
      let msg := msgStandby tv in
      Ret (error msg)
    else
      match UserConfig.disabledAppSupport device with
      | Some true => Ret (value (mkVieramatic accessory device []))
      | _ =>
          cmd <- call (GetApps tv) ;;
          match cmd with
          | error reason =>
              let msg := msgNoApps reason in
              Ret (error msg)
          | value apps => Ret (value (mkVieramatic accessory device apps))
          end
      end
  else Ret (value (mkVieramatic accessory device [])).

(** [deviceSetup(device)], lines 100-212. *)
Definition deviceSetup (device : UserConfig.t)
  : Prog (Outcome VieramaticPlatformAccessory) :=
  call (Log LvlInfo (logHandling device)) ;;
  match deviceSetupPreFlight device with
  | error msg => Ret (error msg)
  | value _ =>
      andThen (resolveSpecs device) (fun tv =>
      andThen (encryptionGate device tv) (fun tv =>
      finishSetup device tv))
  end.

(** The callback of [devices.forEach] in [discoverDevices], lines 55-65. *)
Definition setupAndPublish (device : UserConfig.t) : Prog unit :=
  outcome <- deviceSetup device ;;
  match outcome with
  | error msg => call (Log LvlError (logRejected msg))
  | value v =>
      call (PublishExternalAccessories (accessory v)) ;;
      call (Log LvlInfo (logLoaded (accessory v)))
  end.

(** [discoverDevices()], lines 47-66: what runs before the loop, and the
    tasks the loop starts, one for each declared device.  [forEach] does
    not wait for the promise its callback returns. *)
Definition discoverDevices_prologue (p : Platform) : Prog unit :=
  forEach (accessories p)
          (fun cachedAccessory =>
             call (UnregisterPlatformAccessories cachedAccessory)) ;;
  call WebSetup.

Definition discoverDevices_tasks (p : Platform) : list (Prog unit) :=
  map setupAndPublish (tvs p).

End PlatformCode.

Arguments msgInvalidAddress : simpl never.
Arguments msgInvalidMAC : simpl never.
Arguments msgUnreachable : simpl never.
Arguments msgOffline : simpl never.
Arguments msgNoCredentials : simpl never.
Arguments msgBadCredentials : simpl never.
Arguments msgStandby : simpl never.
Arguments msgNoApps : simpl never.
Arguments logHandling : simpl never.
Arguments logUnreachable : simpl never.
Arguments logUsingCache : simpl never.
Arguments logFirstTime : simpl never.
Arguments logRejected : simpl never.
Arguments logLoaded : simpl never.

(* ===================================================================== *)
(** ** Running the code *)
(* ===================================================================== *)

(** The device layer ([viera.ts]) and the televisions behind it, as a
    state [W] and what each call answers and does to that state.  Every
    call returns (an answer of its type, failures as [Outcome]); nothing
    else is assumed about it. *)
Record Network (W : Type) : Type := mkNetwork {
  livenessProbe : string -> W -> bool * W;
  getSpecs : VieraTV.t -> W -> VieraSpecs.t * W;
  deriveSessionKey : VieraTV.t -> string -> W -> W;
  requestSessionId : VieraTV.t -> W -> Outcome unit * W;
  isTurnedOn : VieraTV.t -> W -> bool * W;
  getApps : VieraTV.t -> W -> Outcome VieraApps * W
}.
Arguments livenessProbe {W} _ _ _.
Arguments getSpecs {W} _ _ _.
Arguments deriveSessionKey {W} _ _ _ _.
Arguments requestSessionId {W} _ _ _.
Arguments isTurnedOn {W} _ _ _.
Arguments getApps {W} _ _ _.

(** [accessories[key].data.specs.friendlyName = name] *)
Definition writeCachedName (key : string) (name : option string)
  (m : Accessories) : Accessories :=
  map (fun kv =>
         if String.eqb (fst kv) key then
           (fst kv,
            match OnDisk.data (snd kv) with
            | Some d =>
                OnDisk.mk
                  (Some (OnDisk.mkData (OnDisk.ipAddress d)
                           (VieraSpecs.setFriendlyName name (OnDisk.specs d))))
                  (OnDisk.apps (snd kv))
            | None => snd kv
            end)
         else kv) m.

Section Semantics.
Context {W : Type} (net : Network W).

(** The state the platform code runs against: the network and the
    in-memory mapping of the store. *)
Record Sys : Type := mkSys {
  world : W;
  stored : Accessories
}.

(** One command, carried out. *)
Definition handle (c : Cmd) (s : Sys) : Resp c * Sys :=
  match c as c0 return Resp c0 * Sys with
  | LivenessProbe ip =>
      let (r, w) := livenessProbe net ip (world s) in (r, mkSys w (stored s))
  | GetSpecs tv =>
      let (r, w) := getSpecs net tv (world s) in (r, mkSys w (stored s))
  | DeriveSessionKey tv key =>
      (tt, mkSys (deriveSessionKey net tv key (world s)) (stored s))
  | RequestSessionId tv =>
      let (r, w) := requestSessionId net tv (world s) in (r, mkSys w (stored s))
  | IsTurnedOn tv =>
      let (r, w) := isTurnedOn net tv (world s) in (r, mkSys w (stored s))
  | GetApps tv =>
      let (r, w) := getApps net tv (world s) in (r, mkSys w (stored s))
  | ReadAccessories => (stored s, s)
  | WriteCachedName key name =>
      (tt, mkSys (world s) (writeCachedName key name (stored s)))
  | Log _ _ => (tt, s)
  | PublishExternalAccessories _ => (tt, s)
  | UnregisterPlatformAccessories _ => (tt, s)
  | WebSetup => (tt, s)
  end.

(** A piece of code run from start to end on its own: the events in
    order, how it ended, and the state it left. *)
Fixpoint exec {A} (p : Prog A) (s : Sys) : list Event * Result A * Sys :=
  match p with
  | Ret a => ([], Returned a, s)
  | Throw e => ([], Thrown e, s)
  | Vis c k =>
      let (r, s1) := handle c s in
      let '(tr, res, s2) := exec (k r) s1 in
      (event c r :: tr, res, s2)
  end.

(** *** Tasks in flight together

    The tasks [forEach] starts run interleaved.  A turn lets one task
    issue its next command; a schedule is the order of the turns.  Any
    command may be followed by a turn of another task, which covers the
    switches at [await] (and more). *)
Record Pool : Type := mkPool {
  tasks : list (Prog unit);
  sys : Sys;
  journal : list (nat * Event)      (* who did what, in order *)
}.

(** An exception has escaped a task.  [forEach] drops the promise its
    callback returns and [discoverDevices] has no [catch] for it (lines
    55-65; the promise of [webSetup], line 52, has one): the rejection
    is unhandled, and the runtime ends the process (Node.js 15 and
    later).  From then on nobody takes a turn. *)
Definition thrown {A} (p : Prog A) : bool :=
  match p with Throw _ => true | _ => false end.

Definition crashed (P : Pool) : bool := existsb thrown (tasks P).

Definition turn (i : nat) (P : Pool) : Pool :=
  if crashed P then P
  else
    match tasks P !! i with
    | Some (Vis c k) =>
        let (r, s) := handle c (sys P) in
        mkPool (<[i := k r]> (tasks P)) s (journal P ++ [(i, event c r)])
    | _ => P
    end.

Definition run (schedule : list nat) (P : Pool) : Pool :=
  fold_left (fun P i => turn i P) schedule P.

(** The events of task [i] in a journal. *)
Definition eventsOf (i : nat) (j : list (nat * Event)) : list Event :=
  map snd (List.filter (fun e => Nat.eqb (fst e) i) j).

End Semantics.

Arguments Sys : clear implicits.
Arguments Pool : clear implicits.
Arguments mkSys {W} _ _.
Arguments world {W} _.
Arguments stored {W} _.
Arguments mkPool {W} _ _ _.
Arguments tasks {W} _.
Arguments sys {W} _.
Arguments journal {W} _.
Arguments crashed {W} _.

(** A task has nothing left to do. *)
Definition finished {A} (p : Prog A) : bool :=
  match p with Vis _ _ => false | _ => true end.

(** How a finished task ended. *)
Definition outcomeOf {A} (p : Prog A) : option (Result A) :=
  match p with
  | Ret a => Some (Returned a)
  | Throw e => Some (Thrown e)
  | Vis _ _ => None
  end.

(** [produces p tr res]: answered command by command as [tr] records,
    [p] issues exactly the commands of [tr] and ends as [res].  This is
    what a task does whatever else goes on around it. *)
Fixpoint produces {A} (p : Prog A) (tr : list Event) (res : Result A) : Prop :=
  match p with
  | Ret a => tr = [] /\ res = Returned a
  | Throw e => tr = [] /\ res = Thrown e
  | Vis c k =>
      match tr with
      | [] => False
      | e :: tr' => exists r : Resp c, e = event c r /\ produces (k r) tr' res
      end
  end.

(** [within n p]: on every path, [p] issues at most [n] commands. *)
Fixpoint within {A} (n : nat) (p : Prog A) {struct p} : Prop :=
  match p with
  | Vis c k =>
      match n with
      | O => False
      | S n' => forall r : Resp c, within n' (k r)
      end
  | _ => True
  end.

(** [never P p]: [p] issues no command satisfying [P]. *)
Fixpoint never {A} (P : Cmd -> bool) (p : Prog A) : Prop :=
  match p with
  | Vis c k => P c = false /\ forall r : Resp c, never P (k r)
  | _ => True
  end.

(** [leads p tr q]: answered as [tr] records, [p] issues the commands of
    [tr] and is then left with [q]. *)
Fixpoint leads {A} (p : Prog A) (tr : list Event) (q : Prog A) {struct tr}
  : Prop :=
  match tr with
  | [] => p = q
  | e :: tr' =>
      match p with
      | Vis c k => exists r : Resp c, e = event c r /\ leads (k r) tr' q
      | _ => False
      end
  end.

(* ===================================================================== *)
(** ** The vocabulary of the statements *)
(* ===================================================================== *)

(** A write to the shared store. *)
Definition is_store_write (c : Cmd) : bool :=
  match c with WriteCachedName _ _ => true | _ => false end.

(** A query of the first-time initialisation. *)
Definition is_first_time_query (c : Cmd) : bool :=
  match c with IsTurnedOn _ | GetApps _ => true | _ => false end.

(** Walks a program along all its paths. *)
Ltac walk :=
  repeat first
    [ progress simpl
    | progress intros
    | exact I
    | reflexivity
    | split
    | match goal with
      | |- context [match ?x with _ => _ end] => destruct x
      end ].

(** The entry has a data snapshot. *)
Definition populated (kv : string * OnDisk.t) : Prop :=
  OnDisk.data (snd kv) <> None.

(** In the words of the specification: the first entry, in enumeration
    order, whose stored address is [ip]. *)
Definition storedAt (ip : string) (kv : string * OnDisk.t) : bool :=
  match OnDisk.data (snd kv) with
  | Some d => String.eqb (OnDisk.ipAddress d) ip
  | None => false
  end.

Definition firstStoredAt (ip : string) (m : Accessories)
  : option (string * OnDisk.t) :=
  List.find (storedAt ip) m.

(** The specs of an entry, or [{}]. *)
Definition specsOfEntry (found : option (string * OnDisk.t)) : SpecsObj :=
  match found with
  | Some (k, v) =>
      match OnDisk.data v with
      | Some d => mkObj (Some k) (OnDisk.specs d)
      | None => mkObj None VieraSpecs.empty
      end
  | None => mkObj None VieraSpecs.empty
  end.

Section Vocabulary.
Context {W : Type} (net : Network W) {helpers : Helpers}.

(** Extending a run: events first, then those of the rest. *)
Definition after {A} (pre : list Event) (r : list Event * Result A * Sys W)
  : list Event * Result A * Sys W :=
  let '(tr, res, s) := r in (pre ++ tr, res, s).

(** [tracks ts0 P]: every task of [P] is what its initial program in
    [ts0] has become after the events the journal has of it. *)
Definition tracks (ts0 : list (Prog unit)) (P : Pool W) : Prop :=
  forall i p0, ts0 !! i = Some p0 ->
    exists q, tasks P !! i = Some q /\ leads p0 (eventsOf i (journal P)) q.

(** Lines 146-211: what follows the resolution of the specs. *)
Definition gateAndFinish (device : UserConfig.t) (tv : VieraTV.t)
  : Prog (Outcome VieramaticPlatformAccessory) :=
  andThen (encryptionGate device tv) (fun tv => finishSetup device tv).

(** The first line of every run. *)
Definition hello (device : UserConfig.t) : Event := EvLog LvlInfo (logHandling device).

(** The store as the name override leaves it. *)
Definition renamed (tv : VieraTV.t) (name : option string) (s : Sys W) : Sys W :=
  match owner (VieraTV.specs tv) with
  | Some key => mkSys (world s) (writeCachedName key name (stored s))
  | None => s
  end.

Definition renaming (tv : VieraTV.t) (name : option string) : list Event :=
  match owner (VieraTV.specs tv) with
  | Some key => [EvWriteCachedName key name]
  | None => []
  end.

(** The store has no entry under the serial number. *)
Definition firstTime (tv : VieraTV.t) (m : Accessories) : bool :=
  JSObject.isEmpty m
  || match JSObject.lookup (propertyKey (VieraSpecs.serialNumber (VieraTV.specs tv))) m with
     | None => true
     | Some _ => false
     end.

(** [discoverDevices()]: the prologue, then the tasks of the loop taking
    turns as [schedule] says.  The result is the events of the prologue
    and the pool the schedule leaves. *)
Definition discoverDevices (p : Platform) (s0 : Sys W) (schedule : list nat)
  : list Event * Pool W :=
  let '(tr0, _, s1) := exec net (discoverDevices_prologue p) s0 in
  (tr0, run net schedule (mkPool (discoverDevices_tasks p) s1 [])).

(** The most commands one task issues. *)
Definition taskBudget : nat := 14.

End Vocabulary.

(** Settles what is left of a case of [deviceSetup] once its run is
    written out: membership in the explicit trace, and the shape of the
    result. *)
Ltac settle :=
  try (intros; discriminate);
  try (match goal with |- forall _ _, In _ _ -> _ => idtac end;
       intros ? ? Hin; simpl in Hin;
       repeat (destruct Hin as [Hin|Hin];
               [try discriminate; injection Hin as <-; reflexivity|]);
       destruct Hin);
  try (intros ? [= <-]; split; [reflexivity|eexists; split; reflexivity]).

(* ===================================================================== *)
(** ** The rest of the platform class, and its callers *)
(* ===================================================================== *)

(** [configureAccessory(accessory)], lines 42-45: the host hands over an
    accessory it restored from its own cache; it is logged and pushed on
    [this.accessories]. *)
Definition configureAccessory (accessory : PlatformAccessory) (p : Platform)
  : Prog Platform :=
  call (Log LvlInfo [AStr "Loading accessory from cache:";
                     AOpt (displayName accessory)]) ;;
  Ret (mkPlatform (accessories p ++ [accessory]) (tvs p)).

(** The host at start-up: [configureAccessory] once for each accessory of
    its cache, in order. *)
Fixpoint restore (cached : list PlatformAccessory) (p : Platform)
  : Prog Platform :=
  match cached with
  | [] => Ret p
  | a :: rest => p' <- configureAccessory a p ;; restore rest p'
  end.

(** The line [configureAccessory] logs. *)
Definition logRestored (a : PlatformAccessory) : Event :=
  EvLog LvlInfo [AStr "Loading accessory from cache:"; AOpt (displayName a)].

(** The platform as its constructor leaves it, lines 23 and 27-32: no
    accessory yet, the declared devices of the configuration, and the
    store loaded from the disk. *)
Definition constructed (tvs : list UserConfig.t) : Platform :=
  mkPlatform [] tvs.

Definition booted {W} (api : API) (d : Disk.t) (w : W) : Sys W :=
  mkSys w (Storage.accessories (Storage.this (Storage.new api d))).

(** A caller of the store: [get] for each key in turn. *)
Definition gets (ids : list string) (e : Storage.env) : Storage.env :=
  fold_left (fun e id => snd (Storage.get id e)) ids e.

(** *** Counting what a run does *)

(** The events of a trace whose command satisfies [P]. *)
Definition count (P : Cmd -> bool) (tr : list Event) : nat :=
  length (List.filter (fun e => P (command e)) tr).

(** [atMost P n p]: on every path, [p] issues at most [n] commands
    satisfying [P]. *)
Fixpoint atMost {A} (P : Cmd -> bool) (n : nat) (p : Prog A) {struct p} : Prop :=
  match p with
  | Vis c k =>
      if P c then
        match n with
        | O => False
        | S n' => forall r : Resp c, atMost P n' (k r)
        end
      else forall r : Resp c, atMost P n (k r)
  | _ => True
  end.

Definition is_probe (c : Cmd) : bool :=
  match c with LivenessProbe _ => true | _ => false end.

Definition is_getSpecs (c : Cmd) : bool :=
  match c with GetSpecs _ => true | _ => false end.

Definition is_handshake (c : Cmd) : bool :=
  match c with RequestSessionId _ => true | _ => false end.

Definition is_isTurnedOn (c : Cmd) : bool :=
  match c with IsTurnedOn _ => true | _ => false end.

Definition is_getApps (c : Cmd) : bool :=
  match c with GetApps _ => true | _ => false end.

(** The scan passes over the entry: it has data, stored under another
    address. *)
Definition passedOver (ip : string) (kv : string * OnDisk.t) : Prop :=
  populated kv /\ storedAt ip kv = false.

(* ===================================================================== *)
(** ** A concrete setting: helpers, televisions, declarations *)
(* ===================================================================== *)

Module Demo.

(** *** The helpers, after the library functions they stand for *)

(** The fields of a dotted or colon-separated string. *)
Fixpoint splitOn (sep : ascii) (s : string) : list string :=
match s with
| EmptyString => [EmptyString]
| String c s' =>
    if Ascii.eqb c sep then EmptyString :: splitOn sep s'
    else match splitOn sep s' with
         | [] => [String c EmptyString]
         | field :: fields => String c field :: fields
         end
end.

(** A decimal number in [0, 255], written without leading zeros. *)
Definition isOctet (s : string) : bool :=
match NilZero.uint_of_string s with
| Some d =>
    let n := N.of_uint d in
    ((n <=? 255)%N && String.eqb (NilZero.string_of_uint (N.to_uint n)) s)%bool
| None => false
end.

(** node's [net.isIPv4]: four such numbers, separated by dots. *)
Definition isIPv4 (s : string) : bool :=
match splitOn "." s with
| [a; b; c; d] => isOctet a && isOctet b && isOctet c && isOctet d
| _ => false
end.

Definition isHexDigit (c : ascii) : bool :=
let n := nat_of_ascii c in
((48 <=? n) && (n <=? 57) || (65 <=? n) && (n <=? 70)
 || (97 <=? n) && (n <=? 102))%nat.

Definition isHexPair (s : string) : bool :=
match s with
| String a (String b EmptyString) => isHexDigit a && isHexDigit b
| _ => false
end.

(** A MAC address: six pairs of hexadecimal digits, separated by colons. *)
Definition isValidMACAddress (s : string) : bool :=
match splitOn ":" s with
| [a; b; c; d; e; f] =>
    isHexPair a && isHexPair b && isHexPair c && isHexPair d
    && isHexPair e && isHexPair f
| _ => false
end.

Definition showArg (a : Arg) : string :=
match a with
| AStr s => s
| AOpt (Some s) => s
| AOpt None => "undefined"
| ABool true => "true"
| ABool false => "false"
| ASpecs _ => "[object Object]"
end.

(** [printf] after node's [util.format]: each [%s] takes the next
    argument, and the arguments left over follow, separated by spaces. *)
Fixpoint format (fmt : string) (args : list string) : string :=
match fmt with
| EmptyString => String.concat EmptyString (map (fun a => (" " ++ a)%string) args)
| String "%" (String "s" rest as tail) =>
    match args with
    | a :: args' => a ++ format rest args'
    | [] => String "%" (format tail [])
    end
| String c rest => String c (format rest args)
end.

Definition printf (fmt : string) (args : list Arg) : string :=
format fmt (map showArg args).

Definition showOpt (k : string) (o : option string) : string :=
match o with
| Some s => (" " ++ k ++ "=" ++ s)%string
| None => EmptyString
end.

Definition stringifyDevice (d : UserConfig.t) : string :=
("{ ipAddress=" ++ UserConfig.ipAddress d
  ++ showOpt "mac" (UserConfig.mac d)
  ++ showOpt "appId" (UserConfig.appId d)
  ++ showOpt "encKey" (UserConfig.encKey d)
  ++ showOpt "friendlyName" (UserConfig.friendlyName d) ++ " }")%string.

Definition stringifyAccessories (m : Accessories) : string :=
("{" ++ String.concat "," (JSObject.keys m) ++ "}")%string.

Definition helpers : Helpers :=
Build_Helpers isIPv4 isValidMACAddress printf stringifyDevice
              stringifyAccessories.

(** *** Televisions on the network *)

(** What a television answers. *)
Record Television : Type := mkTelevision {
  reachable : bool;
  live : VieraSpecs.t;
  session : Outcome unit;
  poweredOn : bool;
  appList : Outcome VieraApps
}.

(** The network: the television at each address, and how many calls
    have gone out. *)
Record World : Type := mkWorld {
  televisionAt : string -> Television;
  calls : nat
}.

Definition called (w : World) : World :=
mkWorld (televisionAt w) (S (calls w)).

Definition network : Network World :=
{| livenessProbe := fun ip w => (reachable (televisionAt w ip), called w);
   getSpecs := fun tv w => (live (televisionAt w (VieraTV.address tv)), called w);
   deriveSessionKey := fun tv key w => w;
   requestSessionId :=
     fun tv w => (session (televisionAt w (VieraTV.address tv)), called w);
   isTurnedOn :=
     fun tv w => (poweredOn (televisionAt w (VieraTV.address tv)), called w);
   getApps :=
     fun tv w => (appList (televisionAt w (VieraTV.address tv)), called w) |}.

Definition nobody : Television :=
mkTelevision false VieraSpecs.empty (error "no answer") false (error "no answer").

(** [10.0.0.5]: on, no encryption, two applications. *)
Definition specs5 : VieraSpecs.t :=
VieraSpecs.mk (Some "Viera 5") (Some "TX-55") (Some "SN-5") (Some false).

(** [10.0.0.7] and [10.0.0.8]: encryption required. *)
Definition specs7 : VieraSpecs.t :=
VieraSpecs.mk (Some "Viera 7") (Some "TX-65") (Some "SN-7") (Some true).

Definition specs8 : VieraSpecs.t :=
VieraSpecs.mk (Some "VIERA") (Some "TX-75") (Some "SN-8") (Some true).

(** [10.0.0.9]: known from an earlier run, in stand-by now. *)
Definition specs9 : VieraSpecs.t :=
VieraSpecs.mk (Some "Viera 9") (Some "TX-40") (Some "SN-9") (Some false).

Definition home (ip : string) : Television :=
if String.eqb ip "10.0.0.5" then
  mkTelevision true specs5 (value tt) true (value ["Netflix"; "YouTube"])
else if String.eqb ip "10.0.0.7" then
  mkTelevision true specs7 (value tt) true (value [])
else if String.eqb ip "10.0.0.8" then
  mkTelevision true specs8 (value tt) true (value ["Netflix"])
else nobody.

(** *** Declarations *)

Definition declared5 : UserConfig.t :=
UserConfig.mk "10.0.0.5" None None None None None.

Definition declared6 : UserConfig.t :=
UserConfig.mk "10.0.0.6" None None None None None.

(** No [encKey]. *)
Definition declared7 : UserConfig.t :=
UserConfig.mk "10.0.0.7" None (Some "app-7") None None None.

(** Credentials and a name of its own. *)
Definition declared8 : UserConfig.t :=
UserConfig.mk "10.0.0.8" None (Some "app-8") (Some "key-8")
              (Some "Living Room") None.

Definition declared9 : UserConfig.t :=
UserConfig.mk "10.0.0.9" None None None None None.

(** Not an address. *)
Definition declaredBad : UserConfig.t :=
UserConfig.mk "10.0.0.256" None None None None None.

(** *** Stores *)

(** A store that has seen [10.0.0.9], and a second television kept under
    a numeric key. *)
Definition cache : Accessories :=
[("42", OnDisk.mk (Some (OnDisk.mkData "10.0.0.42" specs5)) None);
 ("SN-9", OnDisk.mk (Some (OnDisk.mkData "10.0.0.9" specs9)) (Some ["Netflix"]))].

(** A fresh installation, and one with the store above. *)
Definition fresh : Sys World := mkSys (mkWorld home 0) [].
Definition seasoned : Sys World := mkSys (mkWorld home 0) cache.

Definition api : API := {| cachedAccessoryPath := "/var/lib/homebridge/accessories" |}.

Definition onDisk : Storage.env :=
Storage.mkEnv
  (Storage.mk cache "/var/lib/homebridge/accessories/vieramatic.json") ∅.

(** *** A discovery cycle: one bad declaration, one good *)

Definition platform : Platform := mkPlatform [] [declaredBad; declared5].

(** The two tasks take turns. *)
Definition alternating : list nat := List.concat (repeat [0; 1] 14).

(** *** The television objects the runs below end up with *)

Definition tv5 : VieraTV.t :=
VieraTV.setSpecs (mkObj None specs5) (VieraTV.new "10.0.0.5" None).

Definition tv7 : VieraTV.t :=
VieraTV.setSpecs (mkObj None specs7) (VieraTV.new "10.0.0.7" None).

(** As the gate sees it, and as the accessory carries it. *)
Definition tv8 : VieraTV.t :=
VieraTV.setAuth "app-8" "key-8"
  (VieraTV.setSpecs (mkObj None specs8) (VieraTV.new "10.0.0.8" None)).

Definition tv8named : VieraTV.t :=
VieraTV.setFriendlyName (Some "Living Room") tv8.

Definition accessory8 : VieramaticPlatformAccessory :=
mkVieramatic
  (mkAccessory (Some "Living Room") (Some "SN-8") TELEVISION (Some tv8named))
  declared8 ["Netflix"].

(** The specs of [10.0.0.9] as the store holds them. *)
Definition cached9 : SpecsObj := mkObj (Some "SN-9") specs9.

(** Credentials for a television that asks for none. *)
Definition declared5keyed : UserConfig.t :=
UserConfig.mk "10.0.0.5" None (Some "app-5") (Some "key-5") None None.

(** The same home on a day [10.0.0.8] turns the handshake down. *)
Definition lockedOut (ip : string) : Television :=
if String.eqb ip "10.0.0.8" then
  mkTelevision true specs8 (error "401 Unauthorized") true (value ["Netflix"])
else home ip.

Definition refused : Sys World := mkSys (mkWorld lockedOut 0) [].

(** The accessory of [10.0.0.5]. *)
Definition accessory5 : PlatformAccessory :=
mkAccessory (Some "Viera 5") (Some "SN-5") TELEVISION (Some tv5).





(** A store with an entry that [Storage.get] created and nobody filled
    in, after the entry of [10.0.0.5]. *)
Definition halfFilled : Accessories :=
[("SN-5", OnDisk.mk (Some (OnDisk.mkData "10.0.0.5" specs5))
                    (Some ["Netflix"; "YouTube"]));
 ("SN-6", OnDisk.empty)].

Definition unfinished : Sys World := mkSys (mkWorld home 0) halfFilled.

(** A cycle for [10.0.0.6], which nobody answers for, and [10.0.0.5]. *)
Definition platform65 : Platform := mkPlatform [] [declared6; declared5].

End Demo.

(* ===================================================================== *)
(** ** Facts about objects and about the cache document *)
(* ===================================================================== *)

Module JSObjectFacts.
Import JSObject.

Section Facts.
Context {V : Type}.
Implicit Types (o : t V) (k : string) (v : V).

Lemma orderedb_sound ks : orderedb ks = true -> ordered ks.
Proof.
  induction ks as [|k ks IH]; simpl; [trivial|].
  intros H. apply andb_prop in H as [H1 H2]. split; [|auto].
  apply Forall_forall. intros k' Hin.
  rewrite forallb_forall in H1. specialize (H1 k').
  assert (Hk : In k' ks) by (apply list_elem_of_In; exact Hin).
  specialize (H1 Hk).
  apply andb_prop in H1 as [Hne Hp]. split.
  - intros ->. rewrite String.eqb_refl in Hne. discriminate.
  - destruct (precedes k' k); [discriminate|reflexivity].
Qed.

Lemma get_set_eq k v o : get k (set k v o) = Some v.
Proof.
  induction o as [|[k' v'] o IH]; simpl.
  - now rewrite String.eqb_refl.
  - destruct (String.eqb k k') eqn:E; simpl.
    + now rewrite E.
    + destruct (precedes k k'); simpl.
      * now rewrite String.eqb_refl.
      * now rewrite E.
Qed.

Lemma get_set_ne k k' v o : k <> k' -> get k' (set k v o) = get k' o.
Proof.
  intros Hne. induction o as [|[k0 v0] o IH]; simpl.
  - apply String.eqb_neq in Hne. rewrite String.eqb_sym in Hne.
    now rewrite Hne.
  - destruct (String.eqb k k0) eqn:E; simpl.
    + apply String.eqb_eq in E. subst k0.
      assert (String.eqb k' k = false) as ->
          by (apply String.eqb_neq; congruence).
      reflexivity.
    + destruct (precedes k k0); simpl.
      * assert (String.eqb k' k = false) as ->
            by (apply String.eqb_neq; congruence).
        reflexivity.
      * now rewrite IH.
Qed.

Lemma get_None_keys k o : get k o = None <-> ~ In k (keys o).
Proof.
  induction o as [|[k' v'] o IH]; simpl.
  - tauto.
  - destruct (String.eqb k k') eqn:E.
    + apply String.eqb_eq in E. subst. split; [discriminate|tauto].
    + apply String.eqb_neq in E. rewrite IH. split.
      * intros H [H'|H']; [congruence|tauto].
      * tauto.
Qed.

Lemma keys_set k v o k' :
  In k' (keys (set k v o)) -> k' = k \/ In k' (keys o).
Proof.
  induction o as [|[k0 v0] o IH]; simpl.
  - intros [H|[]]; auto.
  - destruct (String.eqb k k0) eqn:E; simpl.
    + tauto.
    + destruct (precedes k k0); simpl.
      * intros [H|H]; auto.
      * intros [H|H]; auto. apply IH in H. tauto.
Qed.

(** Writing a property keeps the object well formed. *)
Lemma set_wf k v o : wf o -> wf (set k v o).
Proof.
  unfold wf. induction o as [|[k0 v0] o IH]; simpl.
  - intros _. split; [constructor|exact I].
  - intros [Hall Ho].
    destruct (String.eqb k k0) eqn:E; simpl; [now split|].
    apply String.eqb_neq in E.
    destruct (precedes k k0) eqn:P; simpl.
    + (* [k] goes right before [k0] *)
      assert (Hk0 : after k k0).
      { split; [exact E|].
        unfold precedes in *. destruct (array_index k), (array_index k0);
          try discriminate; try reflexivity.
        apply N.ltb_lt in P. apply N.ltb_ge. lia. }
      repeat split; auto.
      constructor; [exact Hk0|].
      apply Forall_forall. intros k' Hin.
      rewrite Forall_forall in Hall. destruct (Hall k' Hin) as [Hne Hp].
      unfold after, precedes in *.
      destruct (array_index k) as [n|] eqn:Ek; [|discriminate].
      destruct (array_index k0) as [n0|] eqn:Ek0;
        destruct (array_index k') as [n'|] eqn:Ek'; try discriminate.
      * apply N.ltb_lt in P. apply N.ltb_ge in Hp. split.
        -- intros ->. rewrite Ek in Ek'. injection Ek' as <-. lia.
        -- apply N.ltb_ge. lia.
      * split; [|reflexivity]. intros ->. congruence.
      * split; [|reflexivity]. intros ->. congruence.
    + split; [|auto].
      apply Forall_forall. intros k' Hin.
      apply list_elem_of_In in Hin. apply keys_set in Hin as [->|Hin].
      * split; [congruence|exact P].
      * rewrite Forall_forall in Hall. apply Hall.
        apply list_elem_of_In. exact Hin.
Qed.

Lemma ordered_app_inv ks1 ks2 :
  ordered (ks1 ++ ks2) ->
  ordered ks1 /\ ordered ks2 /\
  forall k1 k2, In k1 ks1 -> In k2 ks2 -> after k1 k2.
Proof.
  induction ks1 as [|k ks1 IH]; simpl.
  - intros H. split; [exact I|]. split; [exact H|]. intros k1 k2 [].
  - intros [Hall H]. apply IH in H as (H1 & H2 & H3).
    rewrite Forall_app in Hall. destruct Hall as [Ha Hb].
    split; [now split|]. split; [exact H2|].
    intros k1 k2 [<-|Hin] Hin2.
    + rewrite Forall_forall in Hb. apply Hb. now apply list_elem_of_In.
    + auto.
Qed.

(** A key that belongs at the end of the enumeration is appended. *)
Lemma set_snoc k v o : wf (o ++ [(k, v)]) -> set k v o = o ++ [(k, v)].
Proof.
  unfold wf, keys. rewrite map_app. simpl. intros H.
  apply ordered_app_inv in H as (_ & _ & H).
  induction o as [|[k0 v0] o IH]; simpl; [reflexivity|].
  destruct (H k0 k) as [Hne Hp]; simpl; auto.
  assert (String.eqb k k0 = false) as ->
      by (apply String.eqb_neq; congruence).
  rewrite Hp. f_equal. apply IH.
  intros k1 k2 Hin1 Hin2. apply H; simpl; auto.
Qed.

Lemma wf_prefix o1 o2 : wf (o1 ++ o2) -> wf o1.
Proof.
  unfold wf, keys. rewrite map_app. intros H.
  now apply ordered_app_inv in H.
Qed.

End Facts.

(** What [o[k]] finds when the object has the property, and when the
    name is inherited. *)
Lemma lookup_of_get {V} (k : string) (o : JSObject.t V) :
  JSObject.get k o <> None -> JSObject.lookup k o <> None.
Proof.
  unfold JSObject.lookup. destruct (JSObject.get k o); [discriminate|congruence].
Qed.

Lemma lookup_inherited {V} (k : string) (o : JSObject.t V) :
  JSObject.inherited k = true -> JSObject.lookup k o <> None.
Proof.
  unfold JSObject.lookup. intros ->. destruct (JSObject.get k o); discriminate.
Qed.

End JSObjectFacts.

Module JsonFacts.
Import Json.

Lemma to_of_specs s : to_specs (of_specs s) = s.
Proof. destruct s as [[?|] [?|] [?|] [?|]]; reflexivity. Qed.

Lemma to_of_apps l : to_apps (of_apps l) = Some l.
Proof.
  unfold to_apps, of_apps. f_equal.
  induction l as [|a l IH]; simpl; [reflexivity|now rewrite IH].
Qed.

Lemma to_of_snapshot d : to_snapshot (of_snapshot d) = Some d.
Proof.
  destruct d as [ip s]. unfold to_snapshot, of_snapshot. simpl.
  now rewrite to_of_specs.
Qed.

Lemma to_of_entry e : to_entry (of_entry e) = e.
Proof.
  destruct e as [[d|] [l|]]; unfold to_entry, of_entry;
    cbn -[to_snapshot of_snapshot to_apps of_apps];
    rewrite ?to_of_snapshot, ?to_of_apps; reflexivity.
Qed.

(** Reading back what was written gives the same mapping, entry for
    entry and in the same order. *)
Lemma to_of_accessories_from (acc o : Accessories) :
  JSObject.wf (acc ++ o) ->
  fold_left (fun o kv => JSObject.set (fst kv) (to_entry (snd kv)) o)
            (map (fun kv => (fst kv, of_entry (snd kv))) o) acc
  = acc ++ o.
Proof.
  revert acc. induction o as [|[k e] o IH]; intros acc Hwf; simpl.
  - now rewrite app_nil_r.
  - rewrite to_of_entry.
    replace (acc ++ (k, e) :: o) with ((acc ++ [(k, e)]) ++ o) in *
      by (rewrite <- app_assoc; reflexivity).
    rewrite JSObjectFacts.set_snoc by (eapply JSObjectFacts.wf_prefix; exact Hwf).
    now apply IH.
Qed.

Lemma to_of_accessories (o : Accessories) :
  JSObject.wf o -> to_accessories (of_accessories o) = o.
Proof. intros H. apply (to_of_accessories_from [] o H). Qed.

End JsonFacts.

(* ===================================================================== *)
(** ** General facts about programs and their runs *)
(* ===================================================================== *)

Lemma command_event c (r : Resp c) : command (event c r) = c.
Proof. destruct c; reflexivity. Qed.

Section ProgFacts.
Context {A : Type}.
Implicit Types (p q : Prog A) (tr : list Event).

Lemma leads_snoc p tr c k (r : Resp c) :
  leads p tr (Vis c k) -> leads p (tr ++ [event c r]) (k r).
Proof.
  revert p. induction tr as [|e tr IH]; intros p; simpl.
  - intros ->. exists r. split; reflexivity.
  - destruct p as [a|x|c' k']; try tauto.
    intros (r' & He & H). exists r'. split; [exact He|]. now apply IH.
Qed.

Lemma leads_produces p tr q res :
  leads p tr q -> outcomeOf q = Some res -> produces p tr res.
Proof.
  revert p. induction tr as [|e tr IH]; intros p; simpl.
  - intros -> Hq. destruct q; simpl in *; try discriminate;
      injection Hq as <-; split; reflexivity.
  - destruct p as [a|x|c k]; try tauto.
    intros (r & He & H) Hq. simpl. exists r. split; [exact He|]. now apply IH.
Qed.

Lemma never_produces (P : Cmd -> bool) p tr res :
  never P p -> produces p tr res ->
  Forall (fun e => P (command e) = false) tr.
Proof.
  revert tr. induction p as [a|x|c k IH]; intros tr; simpl.
  - intros _ [-> _]. constructor.
  - intros _ [-> _]. constructor.
  - intros [Hc Hk]. destruct tr as [|e tr]; [tauto|].
    intros (r & -> & H). constructor.
    + now rewrite command_event.
    + eapply IH; eauto.
Qed.

Lemma within_mono n m p : (n <= m)%nat -> within n p -> within m p.
Proof.
  revert n m. induction p as [a|x|c k IH]; intros n m Hle; simpl; auto.
  destruct n as [|n]; [tauto|]. destruct m as [|m]; [lia|].
  intros H r. apply (IH r n m); [lia|apply H].
Qed.

End ProgFacts.

Section BindFacts.
Context {A B : Type}.
Implicit Types (p : Prog A) (f : A -> Prog B).

(** A sequence ends as its second part does, after the events of both;
    or as the first part does when an exception escapes it. *)
Lemma produces_bind p f tr res :
  produces (bind p f) tr res ->
  (exists tr1 a tr2, produces p tr1 (Returned a) /\
                     produces (f a) tr2 res /\ tr = tr1 ++ tr2)
  \/ (exists e, produces p tr (Thrown e) /\ res = Thrown e).
Proof.
  revert tr. induction p as [a|x|c k IH]; intros tr; simpl.
  - intros H. left. exists [], a, tr. repeat split; auto.
  - intros [-> ->]. right. exists x. repeat split.
  - destruct tr as [|e tr]; [tauto|].
    intros (r & -> & H). apply IH in H as [(tr1 & a & tr2 & H1 & H2 & ->)|(x & H1 & ->)].
    + left. exists (event c r :: tr1), a, tr2. repeat split; auto.
      exists r. split; auto.
    + right. exists x. split; auto. exists r. split; auto.
Qed.

Lemma within_bind n m p f :
  within n p -> (forall a, within m (f a)) -> within (n + m) (bind p f).
Proof.
  revert n. induction p as [a|x|c k IH]; intros n; simpl.
  - intros _ H. eapply within_mono; [|apply H]. lia.
  - trivial.
  - destruct n as [|n]; [tauto|]. intros H Hf r. simpl. apply IH; auto.
Qed.

Lemma never_bind (P : Cmd -> bool) p f :
  never P p -> (forall a, never P (f a)) -> never P (bind p f).
Proof.
  induction p as [a|x|c k IH]; simpl; auto.
  intros [Hc Hk] Hf. split; auto.
Qed.

End BindFacts.

Section ExecFacts.
Context {W : Type} (net : Network W).

Lemma exec_bind {A B} (p : Prog A) (f : A -> Prog B) (s : Sys W) :
  exec net (bind p f) s =
  let '(tr, res, s1) := exec net p s in
  match res with
  | Returned a => after tr (exec net (f a) s1)
  | Thrown e => (tr, Thrown e, s1)
  end.
Proof.
  revert s. induction p as [a|x|c k IH]; intros s; simpl.
  - destruct (exec net (f a) s) as [[tr res] s1]. reflexivity.
  - reflexivity.
  - destruct (handle net c s) as [r s1]. rewrite IH.
    destruct (exec net (k r) s1) as [[tr res] s2].
    destruct res as [a|e]; [|reflexivity].
    destruct (exec net (f a) s2) as [[tr2 res2] s3]. reflexivity.
Qed.

Lemma exec_produces {A} (p : Prog A) (s : Sys W) tr res s' :
  exec net p s = (tr, res, s') -> produces p tr res.
Proof.
  revert s tr. induction p as [a|x|c k IH]; intros s tr; simpl.
  - intros [= <- <- _]. split; reflexivity.
  - intros [= <- <- _]. split; reflexivity.
  - destruct (handle net c s) as [r s1].
    destruct (exec net (k r) s1) as [[tr1 res1] s2] eqn:E.
    intros [= <- <- <-]. exists r. split; [reflexivity|]. eapply IH; eauto.
Qed.

Lemma exec_never {A} (P : Cmd -> bool) (p : Prog A) (s : Sys W) tr res s' :
  never P p -> exec net p s = (tr, res, s') ->
  Forall (fun e => P (command e) = false) tr.
Proof.
  intros Hn He. eapply never_produces; [exact Hn|].
  eapply exec_produces; exact He.
Qed.

End ExecFacts.

Section PoolFacts.
Context {W : Type} (net : Network W).
Implicit Types (P : Pool W) (i j : nat).

Lemma eventsOf_app i (j1 j2 : list (nat * Event)) :
  eventsOf i (j1 ++ j2) = eventsOf i j1 ++ eventsOf i j2.
Proof. unfold eventsOf. now rewrite List.filter_app, map_app. Qed.

(** A turn of task [j] leaves every other task, and its events, alone. *)
Lemma turn_other i j P :
  i <> j ->
  tasks (turn net j P) !! i = tasks P !! i /\
  eventsOf i (journal (turn net j P)) = eventsOf i (journal P).
Proof.
  intros Hne. unfold turn.
  destruct (crashed P); [split; reflexivity|].
  destruct (tasks P !! j) as [[a|x|c k]|] eqn:E; try (split; reflexivity).
  destruct (handle net c (sys P)) as [r s]. simpl. split.
  - apply list_lookup_insert_ne. congruence.
  - rewrite eventsOf_app. unfold eventsOf at 2. simpl.
    assert (Nat.eqb j i = false) as -> by (apply Nat.eqb_neq; congruence).
    simpl. now rewrite app_nil_r.
Qed.

Lemma tracks_init ts0 (s : Sys W) : tracks ts0 (mkPool ts0 s []).
Proof. intros i p0 H. exists p0. split; [exact H|reflexivity]. Qed.

Lemma tracks_turn ts0 j P : tracks ts0 P -> tracks ts0 (turn net j P).
Proof.
  intros HT i p0 Hi. destruct (HT i p0 Hi) as (q & Hq & Hl).
  destruct (Nat.eq_dec i j) as [->|Hne].
  - unfold turn. destruct (crashed P); [exists q; split; assumption|].
    rewrite Hq. destruct q as [a|x|c k].
    + exists (Ret a). split; assumption.
    + exists (Throw x). split; assumption.
    + destruct (handle net c (sys P)) as [r s]. simpl.
      exists (k r). split.
      * apply list_lookup_insert_eq. eapply lookup_lt_Some; exact Hq.
      * rewrite eventsOf_app. unfold eventsOf at 2. simpl.
        rewrite Nat.eqb_refl. simpl. now apply leads_snoc.
  - destruct (turn_other P Hne) as [-> ->]. exists q. split; assumption.
Qed.

Lemma tracks_run ts0 schedule P :
  tracks ts0 P -> tracks ts0 (run net schedule P).
Proof.
  revert P. induction schedule as [|j schedule IH]; intros P H; simpl.
  - exact H.
  - apply IH. now apply tracks_turn.
Qed.

(** Once an exception has escaped, nothing moves any more; so a pool
    that is alive at the end of a schedule was alive all along. *)
Lemma run_crashed schedule P :
  crashed P = true -> run net schedule P = P.
Proof.
  intros H. induction schedule as [|j schedule IH]; simpl; [reflexivity|].
  unfold turn at 1. rewrite H. exact IH.
Qed.

Lemma run_alive schedule P :
  crashed (run net schedule P) = false -> crashed P = false.
Proof.
  destruct (crashed P) eqn:E; [|reflexivity].
  rewrite run_crashed by exact E. congruence.
Qed.

Lemma thrown_crashed i P x :
  tasks P !! i = Some (Throw x) -> crashed P = true.
Proof.
  intros H. unfold crashed. apply existsb_exists. exists (Throw x).
  split; [|reflexivity].
  apply list_elem_of_In. eapply list_elem_of_lookup_2. exact H.
Qed.

(** In a pool that stays alive, each turn of task [i] uses up one command
    of its allowance. *)
Lemma run_within i schedule : forall P n,
  crashed (run net schedule P) = false ->
  (forall q, tasks P !! i = Some q -> within n q) ->
  forall q, tasks (run net schedule P) !! i = Some q ->
    within (n - count_occ Nat.eq_dec schedule i) q.
Proof.
  induction schedule as [|j schedule IH]; intros P n Halive H q Hq; simpl in *.
  - rewrite Nat.sub_0_r. auto.
  - assert (HT : crashed (turn net j P) = false)
      by (eapply run_alive; exact Halive).
    assert (HP : crashed P = false).
    { unfold turn in HT.
      destruct (crashed P) eqn:E; [cbv iota in HT; congruence|reflexivity]. }
    destruct (Nat.eq_dec j i) as [->|Hne].
    + replace (n - S (count_occ Nat.eq_dec schedule i))
        with ((n - 1) - count_occ Nat.eq_dec schedule i) by lia.
      eapply IH; [exact Halive| |exact Hq].
      intros q1 Hq1. unfold turn in Hq1. rewrite HP in Hq1.
      destruct (tasks P !! i) as [[a|x|c k]|] eqn:E.
      * rewrite E in Hq1. injection Hq1 as <-. exact I.
      * rewrite E in Hq1. injection Hq1 as <-. exact I.
      * destruct (handle net c (sys P)) as [r s]. simpl in Hq1.
        rewrite list_lookup_insert_eq in Hq1
          by (eapply lookup_lt_Some; exact E).
        injection Hq1 as <-.
        specialize (H _ eq_refl). simpl in H.
        destruct n as [|n]; [tauto|].
        replace (S n - 1) with n by lia. apply H.
      * rewrite E in Hq1. discriminate.
    + eapply IH; [exact Halive| |exact Hq].
      intros q1 Hq1.
      destruct (@turn_other i j P) as [E _]; [congruence|].
      rewrite E in Hq1. auto.
Qed.

Lemma within_0_finished {A} (p : Prog A) : within 0 p -> finished p = true.
Proof. destruct p; simpl; tauto. Qed.

(** In a pool that stays alive, a task that gets as many turns as it can
    issue commands runs to its end and returns, and what it did is a
    complete run of its program. *)
Lemma run_completes ts0 (s : Sys W) schedule i p0 n :
  ts0 !! i = Some p0 ->
  within n p0 ->
  n <= count_occ Nat.eq_dec schedule i ->
  let P := run net schedule (mkPool ts0 s []) in
  crashed P = false ->
  exists a,
    tasks P !! i = Some (Ret a) /\
    produces p0 (eventsOf i (journal P)) (Returned a).
Proof.
  intros Hi Hn Hle P Halive.
  destruct (tracks_run schedule (tracks_init ts0 s) i Hi) as (q & Hq & Hl).
  fold P in Hq, Hl.
  assert (Hw : within (n - count_occ Nat.eq_dec schedule i) q).
  { eapply run_within; [exact Halive| |exact Hq]. simpl. intros q1 Hq1.
    rewrite Hi in Hq1. injection Hq1 as <-. exact Hn. }
  replace (n - count_occ Nat.eq_dec schedule i) with 0 in Hw by lia.
  apply within_0_finished in Hw.
  destruct q as [a|x|c k]; try discriminate.
  - exists a. split; [exact Hq|]. eapply leads_produces; eauto.
  - apply thrown_crashed in Hq. congruence.
Qed.

End PoolFacts.

(* ===================================================================== *)
(** ** The cache store: [get], [save], and loading again *)
(* ===================================================================== *)

Section StorageFacts.
Import Storage.

(** The mapping of a store is a well-formed object all along: after
    construction, and after every [get]. *)
Lemma to_accessories_wf (j : Json.t) : JSObject.wf (Json.to_accessories j).
Proof.
  destruct j as [| | | | |members]; try exact I.
  unfold Json.to_accessories.
  assert (H : forall (acc : Accessories), JSObject.wf acc ->
            JSObject.wf
              (fold_left (fun o kv => JSObject.set (fst kv) (Json.to_entry (snd kv)) o)
                         members acc)).
  { induction members as [|kv members IH]; intros acc Hacc; simpl; auto.
    apply IH. now apply JSObjectFacts.set_wf. }
  apply H. exact I.
Qed.

Lemma new_wf (api : API) (d : Disk.t) :
  JSObject.wf (accessories (this (new api d))).
Proof.
  unfold new. simpl.
  destruct (Disk.readJsonSync _ d) eqn:E; try exact I;
    rewrite <- E; apply to_accessories_wf.
Qed.

Lemma get_wf (id : string) (e : env) :
  JSObject.wf (accessories (this e)) ->
  JSObject.wf (accessories (this (snd (get id e)))).
Proof.
  intros H. unfold get. simpl.
  destruct (JSObject.lookup id (accessories (this e))); simpl; auto.
  now apply JSObjectFacts.set_wf.
Qed.

End StorageFacts.


(** C9.  Saving a store and then constructing a fresh one over the same
    path gives back the mapping that was saved: the same entries under the
    same keys, in the same order. *)
Theorem save_then_load_roundtrip (api : API) (e : Storage.env) :
  Storage.filePath (Storage.this e)
    = path_join (cachedAccessoryPath api) "vieramatic.json" ->
  JSObject.wf (Storage.accessories (Storage.this e)) ->
  Storage.accessories
    (Storage.this (Storage.new api (Storage.disk (Storage.save e))))
  = Storage.accessories (Storage.this e).
Proof.
  intros Hpath Hwf. unfold Storage.new, Storage.save. simpl.
  rewrite <- Hpath. unfold Disk.readJsonSync, Disk.writeJsonSync.
  rewrite lookup_insert_eq.
  transitivity (Json.to_accessories
                  (Json.of_accessories (Storage.accessories (Storage.this e)))).
  - reflexivity.
  - now apply JsonFacts.to_of_accessories.
Qed.

(* ===================================================================== *)
(** ** The address-based cache scan *)
(* ===================================================================== *)

Lemma firstAt_populated (ip : string) (m : Accessories) :
  Forall populated m ->
  firstAt ip m =
  Returned (match firstStoredAt ip m with
            | Some (k, v) =>
                match OnDisk.data v with
                | Some d => Some (k, OnDisk.specs d)
                | None => None
                end
            | None => None
            end).
Proof.
  induction m as [|[k v] m IH]; intros H; simpl; [reflexivity|].
  inversion H as [|? ? Hv Hm]; subst. unfold populated in Hv. simpl in Hv.
  unfold firstStoredAt, storedAt. simpl.
  destruct (OnDisk.data v) as [d|] eqn:E; [|congruence].
  destruct (String.eqb (OnDisk.ipAddress d) ip); simpl.
  - now rewrite E.
  - now apply IH.
Qed.

(** C10.  Over a store in which every entry has a data snapshot,
    [knownWorking(ip)] returns (it does not throw), and what it returns is
    the stored specs of the first entry, in enumeration order, whose
    [data.ipAddress] is [ip], or [{}] when there is none. *)
Theorem knownWorking_first_match (m : Accessories) (ip : string) :
  Forall populated m ->
  knownWorking m ip = Returned (specsOfEntry (firstStoredAt ip m)).
Proof.
  intros H. unfold knownWorking.
  destruct m as [|kv m]; [reflexivity|].
  cbn [JSObject.isEmpty]. rewrite firstAt_populated by exact H.
  unfold specsOfEntry.
  destruct (firstStoredAt ip (kv :: m)) as [[k v]|]; [|reflexivity].
  destruct (OnDisk.data v); reflexivity.
Qed.

(** The precondition is needed: an entry such as [Storage.get] creates for
    an unknown key, met before any match, makes the scan throw. *)
Lemma knownWorking_unpopulated (k : string) (m : Accessories) (ip : string) :
  exists e, knownWorking ((k, OnDisk.empty) :: m) ip = Thrown e.
Proof. eexists. reflexivity. Qed.

(* ===================================================================== *)
(** ** The setup pipeline, stage by stage *)
(* ===================================================================== *)

Section SetupFacts.
Context {W : Type} (net : Network W) {helpers : Helpers}.
Implicit Types (device : UserConfig.t) (s : Sys W) (tv : VieraTV.t).

Lemma exec_andThen {A B} (p : Prog (Outcome A)) (f : A -> Prog (Outcome B)) s :
  exec net (andThen p f) s =
  let '(tr, res, s1) := exec net p s in
  match res with
  | Returned (value a) => after tr (exec net (f a) s1)
  | Returned (error msg) => (tr, Returned (error msg), s1)
  | Thrown e => (tr, Thrown e, s1)
  end.
Proof.
  unfold andThen. rewrite exec_bind.
  destruct (exec net p s) as [[tr res] s1].
  destruct res as [[a|msg]|e]; try reflexivity.
  simpl. now rewrite app_nil_r.
Qed.

Lemma exec_deviceSetup device s :
  exec net (deviceSetup device) s =
  match deviceSetupPreFlight device with
  | error msg => ([hello device], Returned (error msg), s)
  | value _ =>
      after [hello device]
            (exec net (andThen (resolveSpecs device) (gateAndFinish device)) s)
  end.
Proof.
  unfold deviceSetup. rewrite exec_bind. simpl.
  destruct (deviceSetupPreFlight device) as [[]|msg]; reflexivity.
Qed.

(** The run of the whole, from the runs of its stages. *)
Lemma exec_deviceSetup_resolved device s tr1 tv1 s1 :
  deviceSetupPreFlight device = value tt ->
  exec net (resolveSpecs device) s = (tr1, Returned (value tv1), s1) ->
  exec net (deviceSetup device) s =
  after (hello device :: tr1) (exec net (gateAndFinish device tv1) s1).
Proof.
  intros Hpre H1. rewrite exec_deviceSetup, Hpre, exec_andThen, H1.
  destruct (exec net (gateAndFinish device tv1) s1) as [[tr res] s2].
  reflexivity.
Qed.

Lemma exec_deviceSetup_unresolved device s tr1 msg s1 :
  deviceSetupPreFlight device = value tt ->
  exec net (resolveSpecs device) s = (tr1, Returned (error msg), s1) ->
  exec net (deviceSetup device) s =
  (hello device :: tr1, Returned (error msg), s1).
Proof.
  intros Hpre H1. rewrite exec_deviceSetup, Hpre, exec_andThen, H1.
  reflexivity.
Qed.


Lemma exec_gateAndFinish_refused device tv1 s1 tr2 msg s2 :
  exec net (encryptionGate device tv1) s1 = (tr2, Returned (error msg), s2) ->
  exec net (gateAndFinish device tv1) s1 = (tr2, Returned (error msg), s2).
Proof.
  intros H2. unfold gateAndFinish. rewrite exec_andThen, H2. reflexivity.
Qed.

(** *** Which commands a stage can issue *)

Lemma resolveSpecs_never_negotiates device :
  never is_negotiation (resolveSpecs device).
Proof. unfold resolveSpecs. walk. Qed.

Lemma resolveSpecs_never_writes device :
  never is_store_write (resolveSpecs device).
Proof. unfold resolveSpecs. walk. Qed.

Lemma resolveSpecs_never_first_time device :
  never is_first_time_query (resolveSpecs device).
Proof. unfold resolveSpecs. walk. Qed.



Lemma deviceSetup_never_publishes device :
  never is_publish (deviceSetup device).
Proof.
  unfold deviceSetup, andThen, resolveSpecs, encryptionGate, finishSetup.
  walk.
Qed.

(** A program that does not write to the store leaves it as it was. *)
Lemma exec_store_unchanged {A} (p : Prog A) s tr res s' :
  never is_store_write p -> exec net p s = (tr, res, s') ->
  stored s' = stored s.
Proof.
  revert s tr res s'. induction p as [a|x|c k IH]; intros s tr res s'; simpl.
  - intros _ [= _ _ <-]. reflexivity.
  - intros _ [= _ _ <-]. reflexivity.
  - intros [Hc Hk].
    destruct (handle net c s) as [r s1] eqn:Eh.
    destruct (exec net (k r) s1) as [[tr1 res1] s2] eqn:E.
    intros [= _ _ <-]. rewrite (IH r s1 tr1 res1 s2 (Hk r) E).
    destruct c; simpl in Eh; try discriminate;
      repeat match type of Eh with
             | context [let (_, _) := ?x in _] => destruct x
             end;
      injection Eh as _ <-; reflexivity.
Qed.

(** *** The runs of the last two stages, written out *)

Lemma exec_encryptionGate device tv s :
  exec net (encryptionGate device tv) s =
  let ip := UserConfig.ipAddress device in
  if VieraSpecs.encrypted (VieraTV.specs tv) then
    match UserConfig.appId device, UserConfig.encKey device with
    | Some appId, Some encKey =>
        let tv' := VieraTV.setAuth appId encKey tv in
        let w1 := deriveSessionKey net tv' encKey (world s) in
        let (result, w2) := requestSessionId net tv' w1 in
        ([EvDeriveSessionKey tv' encKey; EvRequestSessionId tv' result],
         Returned match result with
                  | value _ => value tv'
                  | error reason => error (msgBadCredentials ip tv' reason)
                  end,
         mkSys w2 (stored s))
    | _, _ => ([], Returned (error (msgNoCredentials ip tv)), s)
    end
  else ([], Returned (value tv), s).
Proof.
  unfold encryptionGate.
  destruct (VieraSpecs.encrypted (VieraTV.specs tv)); [|reflexivity].
  destruct (UserConfig.appId device) as [appId|]; [|reflexivity].
  destruct (UserConfig.encKey device) as [encKey|]; [|reflexivity].
  cbn [exec bind call handle world stored event].
  destruct (requestSessionId net _ _) as [[u|reason] w2]; reflexivity.
Qed.

Lemma exec_finishSetup device tv s :
  exec net (finishSetup device tv) s =
  let name := nullish (UserConfig.friendlyName device)
                      (VieraSpecs.friendlyName (VieraTV.specs tv)) in
  let tv' := VieraTV.setFriendlyName name tv in
  let acc := mkAccessory name (VieraSpecs.serialNumber (VieraTV.specs tv))
                         TELEVISION (Some tv') in
  let s1 := renamed tv name s in
  let pre := renaming tv name ++ [EvReadAccessories (stored s1)] in
  if firstTime tv' (stored s1) then
    let (status, w1) := isTurnedOn net tv' (world s1) in
    let asked := pre ++ [EvLog LvlInfo (logFirstTime tv');
                         EvIsTurnedOn tv' status] in
    if negb status then
      (asked, Returned (error (msgStandby tv')), mkSys w1 (stored s1))
    else
      match UserConfig.disabledAppSupport device with
      | Some true =>
          (asked, Returned (value (mkVieramatic acc device [])),
           mkSys w1 (stored s1))
      | _ =>
          let (cmd, w2) := getApps net tv' w1 in
          (asked ++ [EvGetApps tv' cmd],
           Returned match cmd with
                    | error reason => error (msgNoApps reason)
                    | value apps => value (mkVieramatic acc device apps)
                    end,
           mkSys w2 (stored s1))
      end
  else (pre, Returned (value (mkVieramatic acc device [])), s1).
Proof.
  unfold finishSetup, renamed, renaming, firstTime.
  destruct tv as [address mac [own spec] appId key].
  destruct own as [key0|];
    cbn [exec bind call handle world stored event owner fields
         VieraTV.specs VieraTV.setFriendlyName VieraTV.setSpecs app];
    match goal with
    | |- context [JSObject.isEmpty ?m || ?b] =>
        destruct (JSObject.isEmpty m || b)
    end;
    cbn [exec bind call handle world stored event app]; try reflexivity;
    destruct (isTurnedOn net _ _) as [[|] w1];
    cbn [negb exec bind call handle world stored event app]; try reflexivity;
    destruct (UserConfig.disabledAppSupport device) as [[|]|];
    cbn [exec bind call handle world stored event app]; try reflexivity;
    destruct (getApps net _ _) as [[apps|reason] w2]; reflexivity.
Qed.

(** Renaming a cached entry neither adds nor removes a key. *)
Lemma get_writeCachedName key name k (m : Accessories) :
  JSObject.get k (writeCachedName key name m) = None
  <-> JSObject.get k m = None.
Proof.
  unfold writeCachedName.
  induction m as [|[k0 v0] m IH]; simpl; [tauto|].
  destruct (String.eqb k0 key); simpl;
    destruct (String.eqb k k0); try tauto; split; discriminate.
Qed.

Lemma isEmpty_writeCachedName key name (m : Accessories) :
  JSObject.isEmpty (writeCachedName key name m) = JSObject.isEmpty m.
Proof. destruct m; reflexivity. Qed.


(** The first-time test comes out the same on the store as the name
    override leaves it and on the store before. *)
Lemma firstTime_renamed tv name s :
  firstTime (VieraTV.setFriendlyName name tv) (stored (renamed tv name s))
  = firstTime tv (stored s).
Proof.
  unfold firstTime, renamed, JSObject.lookup. simpl.
  set (k := propertyKey (VieraSpecs.serialNumber (VieraTV.specs tv))).
  destruct (owner (VieraTV.specs tv)) as [key|]; simpl; [|reflexivity].
  rewrite isEmpty_writeCachedName. f_equal.
  pose proof (get_writeCachedName key name k (stored s)) as Hw.
  destruct (JSObject.get k (writeCachedName key name (stored s)));
    destruct (JSObject.get k (stored s)); try reflexivity.
  - destruct Hw as [_ Hw]. specialize (Hw eq_refl). discriminate.
  - destruct Hw as [Hw _]. specialize (Hw eq_refl). discriminate.
Qed.


Lemma firstTime_false tv (m : Accessories) :
  let key := propertyKey (VieraSpecs.serialNumber (VieraTV.specs tv)) in
  JSObject.get key m <> None \/ (m <> [] /\ JSObject.inherited key = true) ->
  firstTime tv m = false.
Proof.
  intros key H. unfold firstTime, JSObject.lookup. fold key.
  destruct H as [H | [Hm Hin]].
  - destruct m as [|kv m]; [simpl in H; congruence|].
    destruct (JSObject.get key (kv :: m)); [reflexivity|congruence].
  - destruct m as [|kv m]; [congruence|]. rewrite Hin.
    destruct (JSObject.get key (kv :: m)); reflexivity.
Qed.

End SetupFacts.

(* ===================================================================== *)
(** ** Properties of [deviceSetup] *)
(* ===================================================================== *)

Section SetupTheorems.
Context {W : Type} (net : Network W) {helpers : Helpers}.
Implicit Types (device : UserConfig.t) (s : Sys W) (tv : VieraTV.t).

(** C4.  A declaration whose address is not an IPv4 literal, or whose
    MAC address is given and is not valid, fails validation with a
    message that [printf] builds around the serialised declaration;
    [deviceSetup] returns that failure after its first log line, having
    issued no call to the network and left the state untouched. *)
Theorem invalid_declaration_rejected_before_io device s :
  isIPv4 (UserConfig.ipAddress device) = false
  \/ (exists mac, UserConfig.mac device = Some mac
                  /\ isValidMACAddress mac = false) ->
  exists fmt args,
    deviceSetupPreFlight device = error (printf fmt args)
    /\ In (AStr (stringifyDevice device)) args
    /\ exec net (deviceSetup device) s
       = ([hello device], Returned (error (printf fmt args)), s)
    /\ Forall (fun e => is_network_call (command e) = false) [hello device].
Proof.
  intros H. rewrite exec_deviceSetup. unfold deviceSetupPreFlight.
  destruct (isIPv4 (UserConfig.ipAddress device)) eqn:Eip; simpl.
  - destruct H as [H|(mac & Hmac & Hbad)]; [discriminate|].
    rewrite Hmac, Hbad. simpl.
    eexists _, _. split; [reflexivity|].
    split; [simpl; auto|]. split; [reflexivity|].
    repeat constructor.
  - eexists _, _. split; [reflexivity|].
    split; [simpl; auto|]. split; [reflexivity|].
    repeat constructor.
Qed.


(** C5.  When the resolved specs require encryption and the declaration
    lacks [appId] or [encKey], [deviceSetup] fails at the credential
    check: its run ends right after the events of the resolution, in
    the state the resolution left, and no event of the run is a
    session-key derivation or a handshake. *)
Theorem missing_credentials_stop_before_negotiation device s tr1 tv s1 :
  deviceSetupPreFlight device = value tt ->
  exec net (resolveSpecs device) s = (tr1, Returned (value tv), s1) ->
  VieraSpecs.requiresEncryption (VieraTV.specs tv) = Some true ->
  UserConfig.appId device = None \/ UserConfig.encKey device = None ->
  exec net (deviceSetup device) s
  = (hello device :: tr1,
     Returned (error (msgNoCredentials (UserConfig.ipAddress device) tv)), s1)
  /\ Forall (fun e => is_negotiation (command e) = false) (hello device :: tr1).
Proof.
  intros Hpre H1 Henc Hcred. split.
  - erewrite exec_deviceSetup_resolved; [|exact Hpre|exact H1].
    erewrite exec_gateAndFinish_refused.
    + simpl. rewrite app_nil_r. reflexivity.
    + rewrite exec_encryptionGate. unfold VieraSpecs.encrypted. rewrite Henc.
      destruct Hcred as [-> | ->]; [reflexivity|].
      destruct (UserConfig.appId device); reflexivity.
  - constructor; [reflexivity|].
    eapply exec_never; [apply resolveSpecs_never_negotiates|exact H1].
Qed.

(** C1.  If [deviceSetup] returns an accessory whose television has specs
    with [requiresEncryption = true], then the declaration supplied both
    [appId] and [encKey], and in that run the session key was derived
    and [requestSessionId] was called on that television, carrying these
    credentials, and answered with success. *)
Theorem encrypted_success_needs_session device s tr v s' tv :
  exec net (deviceSetup device) s = (tr, Returned (value v), s') ->
  context_device (accessory v) = Some tv ->
  VieraSpecs.requiresEncryption (VieraTV.specs tv) = Some true ->
  exists appId encKey tv0,
    UserConfig.appId device = Some appId
    /\ UserConfig.encKey device = Some encKey
    /\ VieraTV.auth_appId tv0 = Some appId
    /\ VieraTV.auth_key tv0 = Some encKey
    /\ tv = VieraTV.setFriendlyName
              (nullish (UserConfig.friendlyName device)
                       (VieraSpecs.friendlyName (VieraTV.specs tv0))) tv0
    /\ In (EvDeriveSessionKey tv0 encKey) tr
    /\ In (EvRequestSessionId tv0 (value tt)) tr.
Proof.
  intros H Hctx Henc.
  rewrite exec_deviceSetup in H.
  destruct (deviceSetupPreFlight device) as [[]|msg]; [|discriminate].
  rewrite exec_andThen in H.
  destruct (exec net (resolveSpecs device) s) as [[tr1 [[tv1|msg]|e]] s1];
    try discriminate.
  unfold gateAndFinish in H. rewrite exec_andThen, exec_encryptionGate in H.
  destruct (VieraSpecs.encrypted (VieraTV.specs tv1)) eqn:Eenc.
  - destruct (UserConfig.appId device) as [appId|]; [|discriminate].
    destruct (UserConfig.encKey device) as [encKey|]; [|discriminate].
    cbv beta zeta in H.
    destruct (requestSessionId net _ _) as [[[]|reason] w2]; [|discriminate].
    cbv beta in H. rewrite (exec_finishSetup net) in H.
    exists appId, encKey, (VieraTV.setAuth appId encKey tv1).
    assert (Hv : accessory v
                 = mkAccessory
                     (nullish (UserConfig.friendlyName device)
                        (VieraSpecs.friendlyName (VieraTV.specs tv1)))
                     (VieraSpecs.serialNumber (VieraTV.specs tv1))
                     TELEVISION
                     (Some (VieraTV.setFriendlyName
                              (nullish (UserConfig.friendlyName device)
                                 (VieraSpecs.friendlyName (VieraTV.specs tv1)))
                              (VieraTV.setAuth appId encKey tv1)))
                 /\ exists rest,
                      tr = hello device :: tr1
                             ++ EvDeriveSessionKey (VieraTV.setAuth appId encKey tv1) encKey
                             :: EvRequestSessionId (VieraTV.setAuth appId encKey tv1) (value tt)
                             :: rest).
    { cbv zeta in H.
      repeat match type of H with
             | context [if ?b then _ else _] => destruct b
             | context [let (_, _) := ?x in _] => destruct x
             | context [match ?x with _ => _ end] => destruct x
             end;
        simpl in H; try discriminate;
        injection H as <- <- <-; (split; [reflexivity|]);
        eexists; reflexivity. }
    destruct Hv as [Hv (rest & ->)].
    rewrite Hv in Hctx. simpl in Hctx. injection Hctx as <-.
    repeat split; try reflexivity.
    + right. apply in_or_app. right. left. reflexivity.
    + right. apply in_or_app. right. right. left. reflexivity.
  - (* the gate was not entered: the specs did not ask for encryption *)
    exfalso. cbv beta iota zeta in H.
    rewrite (exec_finishSetup net) in H. cbv zeta in H.
    assert (Hv : context_device (accessory v)
                 = Some (VieraTV.setFriendlyName
                           (nullish (UserConfig.friendlyName device)
                              (VieraSpecs.friendlyName (VieraTV.specs tv1)))
                           tv1)).
    { repeat match type of H with
             | context [if ?b then _ else _] => destruct b
             | context [let (_, _) := ?x in _] => destruct x
             | context [match ?x with _ => _ end] => destruct x
             end;
        simpl in H; try discriminate;
        injection H as <- <- <-; reflexivity. }
    rewrite Hv in Hctx. injection Hctx as <-.
    unfold VieraSpecs.encrypted in Eenc. simpl in Henc.
    rewrite Henc in Eenc. discriminate.
Qed.


(** C3 (as amended).  The friendly-name override is applied after the
    encryption gate, on the way to the accessory.  For a run whose specs
    were resolved to [tv1.specs]: every session-key derivation and every
    handshake of the run is made on a television whose specs are the
    resolved ones, with the name they came with; if the run is stopped
    (at the gate or later) the store keeps the names it had unless the
    gate was passed; and if the run succeeds, the accessory is named by
    the declaration's [friendlyName] when it has one and by the resolved
    specs otherwise, and carries the television with that name. *)
Theorem name_override_follows_gate device s tr1 tv1 s1 :
  let name := nullish (UserConfig.friendlyName device)
                      (VieraSpecs.friendlyName (VieraTV.specs tv1)) in
  deviceSetupPreFlight device = value tt ->
  exec net (resolveSpecs device) s = (tr1, Returned (value tv1), s1) ->
  exists tr res s',
    exec net (deviceSetup device) s = (hello device :: tr1 ++ tr, res, s')
    /\ (forall tv key, In (EvDeriveSessionKey tv key) tr ->
          VieraTV.specs tv = VieraTV.specs tv1)
    /\ (forall tv r, In (EvRequestSessionId tv r) tr ->
          VieraTV.specs tv = VieraTV.specs tv1)
    /\ (forall tr2 msg s2,
          exec net (encryptionGate device tv1) s1
            = (tr2, Returned (error msg), s2) ->
          res = Returned (error msg) /\ stored s' = stored s)
    /\ (forall v, res = Returned (value v) ->
          displayName (accessory v) = name
          /\ exists tv,
               context_device (accessory v) = Some tv
               /\ VieraTV.specs tv
                  = mkObj (owner (VieraTV.specs tv1))
                          (VieraSpecs.setFriendlyName name (VieraTV.specs tv1))).
Proof.
  intros name Hpre H1.
  assert (Hs1 : stored s1 = stored s)
    by (eapply exec_store_unchanged; [apply resolveSpecs_never_writes|exact H1]).
  erewrite exec_deviceSetup_resolved; [|exact Hpre|exact H1].
  unfold gateAndFinish. rewrite exec_andThen, exec_encryptionGate.
  cbv zeta. clear H1.
  destruct tv1 as [address mac [own spec] aid akey]. simpl in name.
  destruct (VieraSpecs.encrypted _).
  - destruct (UserConfig.appId device) as [appId|];
      [destruct (UserConfig.encKey device) as [encKey|]|].
    + destruct (requestSessionId net _ _) as [[[]|reason] w2].
      * rewrite (exec_finishSetup net). cbv zeta.
        unfold renaming, renamed. simpl.
        repeat match goal with
               | |- context [if ?b then _ else _] => destruct b
               | |- context [let (_, _) := ?x in _] => destruct x
               | |- context [match ?x with _ => _ end] => destruct x
               end;
          simpl; eexists _, _, _; (split; [reflexivity|]);
          repeat apply conj; settle.
      * simpl. eexists _, _, _. split; [reflexivity|].
        repeat apply conj; settle.
        intros ? ? ? [= _ <- <-]. split; [reflexivity|exact Hs1].
    + simpl. eexists [], _, _. split; [now rewrite app_nil_r|].
      repeat apply conj; settle.
      intros ? ? ? [= _ <- <-]. split; [reflexivity|exact Hs1].
    + simpl. eexists [], _, _. split; [now rewrite app_nil_r|].
      repeat apply conj; settle.
      intros ? ? ? [= _ <- <-]. split; [reflexivity|exact Hs1].
  - cbv beta iota. rewrite (exec_finishSetup net). cbv zeta.
    unfold renaming, renamed. simpl.
    repeat match goal with
           | |- context [if ?b then _ else _] => destruct b
           | |- context [let (_, _) := ?x in _] => destruct x
           | |- context [match ?x with _ => _ end] => destruct x
           end;
      simpl; eexists _, _, _; (split; [reflexivity|]);
      repeat apply conj; settle.
Qed.

End SetupTheorems.

(* ===================================================================== *)
(** ** The discovery cycle *)
(* ===================================================================== *)

Section Discovery.
Context {W : Type} (net : Network W) {helpers : Helpers}.

Lemma setupAndPublish_within device :
  within taskBudget (setupAndPublish device).
Proof.
  unfold taskBudget, setupAndPublish, deviceSetup, andThen, resolveSpecs,
    encryptionGate, finishSetup.
  walk.
Qed.

(** What a task does: a run of [deviceSetup], then the accessory is
    published if it returned one, the message is logged if it returned a
    failure, and nothing more if it threw. *)
Lemma setupAndPublish_produces device tr res :
  produces (setupAndPublish device) tr res ->
  exists tr1 res1,
    produces (deviceSetup device) tr1 res1 /\
    match res1 with
    | Returned (value v) =>
        res = Returned tt /\
        tr = tr1 ++ [EvPublish (accessory v);
                     EvLog LvlInfo (logLoaded (accessory v))]
    | Returned (error msg) =>
        res = Returned tt /\ tr = tr1 ++ [EvLog LvlError (logRejected msg)]
    | Thrown e => res = Thrown e /\ tr = tr1
    end.
Proof.
  unfold setupAndPublish. intros H.
  apply produces_bind in H as [(tr1 & o & tr2 & H1 & H2 & ->)|(e & H1 & ->)].
  - exists tr1, (Returned o). split; [exact H1|].
    destruct o as [v|msg]; simpl in H2.
    + destruct tr2 as [|e1 tr2]; [tauto|]. destruct H2 as ([] & -> & H2).
      destruct tr2 as [|e2 tr2]; [tauto|]. destruct H2 as ([] & -> & H2).
      destruct H2 as [-> ->]. split; reflexivity.
    + destruct tr2 as [|e1 tr2]; [tauto|]. destruct H2 as ([] & -> & H2).
      destruct H2 as [-> ->]. split; reflexivity.
  - exists tr, (Thrown e). split; [exact H1|]. split; reflexivity.
Qed.

Lemma lookup_tasks (p : Platform) i device :
  tvs p !! i = Some device ->
  discoverDevices_tasks p !! i = Some (setupAndPublish device).
Proof.
  unfold discoverDevices_tasks. generalize (tvs p). intros l. revert i.
  induction l as [|d l IH]; intros [|i]; simpl; try discriminate.
  - intros [= ->]. reflexivity.
  - apply IH.
Qed.

(** X20.  Failures that setups return are isolated.  In a discovery
    cycle in which no exception escapes a setup, take any declared
    device and any schedule that gives its task the turns it needs.
    Whatever the other devices are, whichever of their setups succeed or
    return a failure, and however the turns are interleaved, the task of
    this device runs [deviceSetup] to its end, and then: if the setup
    returned an accessory, the accessory is published (and the success
    logged); if it returned a failure, the message is logged and nothing
    is published for the device.  [deviceSetup] itself publishes
    nothing. *)
Theorem discovery_isolates_devices
    (p : Platform) (s0 : Sys W) (schedule : list nat) i device :
  tvs p !! i = Some device ->
  taskBudget <= count_occ Nat.eq_dec schedule i ->
  crashed (snd (discoverDevices net p s0 schedule)) = false ->
  let '(_, P) := discoverDevices net p s0 schedule in
  exists tr outcome,
    produces (deviceSetup device) tr (Returned outcome)
    /\ Forall (fun e => is_publish (command e) = false) tr
    /\ tasks P !! i = Some (Ret tt)
    /\ match outcome with
       | value v =>
           eventsOf i (journal P)
           = tr ++ [EvPublish (accessory v);
                    EvLog LvlInfo (logLoaded (accessory v))]
       | error msg =>
           eventsOf i (journal P) = tr ++ [EvLog LvlError (logRejected msg)]
       end.
Proof.
  intros Hi Hturns. unfold discoverDevices.
  destruct (exec net (discoverDevices_prologue p) s0) as [[tr0 r0] s1].
  cbn [snd]. intros Halive.
  pose proof (@run_completes W net (discoverDevices_tasks p) s1 schedule i
                (setupAndPublish device) taskBudget
                (lookup_tasks p i Hi) (@setupAndPublish_within device) Hturns)
    as HC.
  cbv zeta in HC. destruct (HC Halive) as ([] & Hq & Hprod).
  apply setupAndPublish_produces in Hprod as (tr1 & res1 & H1 & Hcase).
  destruct res1 as [outcome|e]; [|destruct Hcase; discriminate].
  exists tr1, outcome. split; [exact H1|]. split.
  - eapply never_produces; [apply deviceSetup_never_publishes|exact H1].
  - split; [exact Hq|].
    destruct outcome as [v|msg]; destruct Hcase as [_ Htr]; exact Htr.
Qed.

End Discovery.

(* ===================================================================== *)
(** ** More about the store *)
(* ===================================================================== *)

Section MoreStorage.
Import Storage.

Lemma gets_filePath (ids : list string) (e : env) :
  filePath (this (gets ids e)) = filePath (this e).
Proof.
  unfold gets. revert e. induction ids as [|id ids IH]; intros e; simpl.
  - reflexivity.
  - rewrite IH. unfold get. simpl.
    destruct (JSObject.lookup id (accessories (this e))); reflexivity.
Qed.

Lemma gets_disk (ids : list string) (e : env) : disk (gets ids e) = disk e.
Proof.
  unfold gets. revert e. induction ids as [|id ids IH]; intros e; simpl.
  - reflexivity.
  - rewrite IH. unfold get. simpl.
    destruct (JSObject.lookup id (accessories (this e))); reflexivity.
Qed.

Lemma gets_wf (ids : list string) (e : env) :
  JSObject.wf (accessories (this e)) ->
  JSObject.wf (accessories (this (gets ids e))).
Proof.
  unfold gets. revert e. induction ids as [|id ids IH]; intros e H; simpl.
  - exact H.
  - apply IH. now apply get_wf.
Qed.

(** Writing a key that is not there keeps every entry that is, in the
    order they were in. *)
Lemma set_absent_others {V} (k : string) (v : V) (o : JSObject.t V) :
  JSObject.get k o = None ->
  List.filter (fun kv => negb (String.eqb (fst kv) k)) (JSObject.set k v o) = o
  /\ length (JSObject.set k v o) = S (length o).
Proof.
  induction o as [|[k0 v0] o IH]; simpl.
  - intros _. rewrite String.eqb_refl. split; reflexivity.
  - destruct (String.eqb k k0) eqn:E; [discriminate|].
    intros Hnone. destruct (IH Hnone) as [IH1 IH2].
    assert (E' : String.eqb k0 k = false) by (rewrite String.eqb_sym; exact E).
    assert (Hrest : List.filter (fun kv => negb (String.eqb (fst kv) k)) o = o).
    { clear - Hnone. induction o as [|[k1 v1] o IHo]; simpl in *; [reflexivity|].
      destruct (String.eqb k k1) eqn:E1; [discriminate|].
      rewrite String.eqb_sym, E1. simpl. f_equal. now apply IHo. }
    destruct (JSObject.precedes k k0); simpl.
    + rewrite String.eqb_refl, E'. simpl. rewrite Hrest. split; reflexivity.
    + rewrite E'. simpl. rewrite IH1, IH2. split; reflexivity.
Qed.

End MoreStorage.

(** X1.  A store constructed over a path that holds no file, a file that
    is not JSON, or the document [null] starts with the empty mapping;
    the constructor does not fail and writes nothing. *)
Theorem Storage_new_without_document (api : API) (d : Disk.t) :
  let path := path_join (cachedAccessoryPath api) "vieramatic.json" in
  d !! path = None \/ d !! path = Some Disk.Garbage
  \/ d !! path = Some (Disk.Text Json.Null) ->
  Storage.new api d = Storage.mkEnv (Storage.mk [] path) d.
Proof.
  intros path H. unfold Storage.new, Disk.readJsonSync. fold path.
  destruct H as [-> | [-> | ->]]; reflexivity.
Qed.

(** X2.  Nothing is lost over a restart after [save]: take a store over
    the cache path whose mapping is a JavaScript object, call [get] for
    any keys, [save], and construct a fresh store over the disk that
    results; its mapping is the mapping that was saved, entries
    materialised by [get] included.  In it every key that was asked for
    is found, and has an entry of its own unless it names an inherited
    member. *)
Theorem Storage_restart_after_save
    (api : API) (e0 : Storage.env) (ids : list string) :
  let e := gets ids e0 in
  Storage.filePath (Storage.this e0)
    = path_join (cachedAccessoryPath api) "vieramatic.json" ->
  JSObject.wf (Storage.accessories (Storage.this e0)) ->
  Storage.accessories
    (Storage.this (Storage.new api (Storage.disk (Storage.save e))))
  = Storage.accessories (Storage.this e)
  /\ Forall (fun id =>
               JSObject.lookup id (Storage.accessories (Storage.this e)) <> None
               /\ (JSObject.inherited id = false ->
                   JSObject.get id (Storage.accessories (Storage.this e))
                   <> None)) ids.
Proof.
  intros e Hpath0 Hwf0. split.
  - assert (Hwf : JSObject.wf (Storage.accessories (Storage.this e)))
      by (apply gets_wf, Hwf0).
    assert (Hpath : Storage.filePath (Storage.this e)
                    = path_join (cachedAccessoryPath api) "vieramatic.json")
      by (unfold e; rewrite gets_filePath; exact Hpath0).
    unfold Storage.new at 1, Storage.save. simpl.
    rewrite <- Hpath. unfold Disk.readJsonSync, Disk.writeJsonSync.
    rewrite lookup_insert_eq.
    transitivity (Json.to_accessories
                    (Json.of_accessories (Storage.accessories (Storage.this e)))).
    + reflexivity.
    + now apply JsonFacts.to_of_accessories.
  - unfold e. clear. revert e0.
    induction ids as [|id ids IH]; intros e0; [constructor|].
    unfold gets in *. simpl.
    constructor; [|apply IH].
    (* the entry [get] leaves under [id] stays through the later calls *)
    assert (Hkeep : forall ids e1,
               JSObject.get id (Storage.accessories (Storage.this e1)) <> None ->
               JSObject.get id
                 (Storage.accessories
                    (Storage.this
                       (fold_left (fun e id => snd (Storage.get id e)) ids e1)))
               <> None).
    { clear. induction ids as [|id' ids IH]; intros e1 H; simpl; [exact H|].
      apply IH. unfold Storage.get. simpl.
      destruct (JSObject.lookup id' (Storage.accessories (Storage.this e1)))
        eqn:E; simpl; [exact H|].
      destruct (String.eqb id' id) eqn:Eid.
      - apply String.eqb_eq in Eid. subst.
        unfold JSObject.lookup in E.
        destruct (JSObject.get id (Storage.accessories (Storage.this e1)));
          [discriminate|congruence].
      - apply String.eqb_neq in Eid.
        rewrite JSObjectFacts.get_set_ne by exact Eid. exact H. }
    set (e1 := snd (Storage.get id e0)).
    assert (Hnow : JSObject.inherited id = false ->
                   JSObject.get id (Storage.accessories (Storage.this e1))
                   <> None).
    { intros Hin. unfold e1, Storage.get, JSObject.lookup. simpl.
      destruct (JSObject.get id (Storage.accessories (Storage.this e0))) eqn:E;
        simpl.
      - rewrite E. discriminate.
      - rewrite Hin. simpl. rewrite JSObjectFacts.get_set_eq. discriminate. }
    split.
    + destruct (JSObject.inherited id) eqn:Hin.
      * apply JSObjectFacts.lookup_inherited. exact Hin.
      * apply JSObjectFacts.lookup_of_get, Hkeep, Hnow. reflexivity.
    + intros Hin. apply Hkeep, Hnow, Hin.
Qed.

(** X3.  [get] is idempotent: a second [get] of the same key returns the
    entry the first one returned and changes nothing. *)
Theorem Storage_get_twice (id : string) (e : Storage.env) :
  Storage.get id (snd (Storage.get id e))
  = (fst (Storage.get id e), snd (Storage.get id e)).
Proof.
  unfold Storage.get, JSObject.lookup.
  destruct (JSObject.get id (Storage.accessories (Storage.this e))) as [old|] eqn:E;
    [|destruct (JSObject.inherited id) eqn:Ei]; simpl.
  - repeat (rewrite E; simpl). reflexivity.
  - repeat (rewrite E; simpl). reflexivity.
  - repeat (rewrite JSObjectFacts.get_set_eq; simpl). reflexivity.
Qed.

(** X4.  [save] replaces the cache document by the serialised mapping
    whatever the path held before (nothing, a corrupt file, an older
    document); it leaves every other file and the object itself as they
    were, and saving twice is saving once. *)
Theorem Storage_save_overwrites (e : Storage.env) :
  let path := Storage.filePath (Storage.this e) in
  Storage.disk (Storage.save e) !! path
  = Some (Disk.Text (Json.of_accessories (Storage.accessories (Storage.this e))))
  /\ (forall other, other <> path ->
        Storage.disk (Storage.save e) !! other = Storage.disk e !! other)
  /\ Storage.this (Storage.save e) = Storage.this e
  /\ Storage.save (Storage.save e) = Storage.save e.
Proof.
  intros path. unfold Storage.save, Disk.writeJsonSync. simpl. fold path.
  repeat apply conj.
  - apply lookup_insert_eq.
  - intros other Hne. apply lookup_insert_ne. congruence.
  - reflexivity.
  - f_equal. apply insert_insert_eq.
Qed.

(** X5.  [get] never removes or reorders entries: for a key that
    [accessories[id]] finds (an entry of the mapping, or a member every
    object inherits) the store is left as it is; for any other key the
    mapping grows by exactly one entry, and without that entry it is the
    mapping as it was. *)
Theorem Storage_get_grows_by_one (id : string) (e : Storage.env) :
  let before := Storage.accessories (Storage.this e) in
  let now := Storage.accessories (Storage.this (snd (Storage.get id e))) in
  (JSObject.lookup id before <> None -> snd (Storage.get id e) = e)
  /\ (JSObject.lookup id before = None ->
      JSObject.get id now = Some OnDisk.empty
      /\ length now = S (length before)
      /\ List.filter (fun kv => negb (String.eqb (fst kv) id)) now = before).
Proof.
  intros before now. unfold now, before, Storage.get.
  destruct (JSObject.lookup id (Storage.accessories (Storage.this e)))
    as [old|] eqn:E; simpl.
  - split; [reflexivity|discriminate].
  - split; [congruence|]. intros _.
    assert (Hown : JSObject.get id (Storage.accessories (Storage.this e)) = None).
    { unfold JSObject.lookup in E.
      destruct (JSObject.get id (Storage.accessories (Storage.this e)));
        [discriminate|reflexivity]. }
    destruct (set_absent_others id OnDisk.empty _ Hown) as [H1 H2].
    split; [apply JSObjectFacts.get_set_eq|]. split; assumption.
Qed.

(* ===================================================================== *)
(** ** More about validation and the cache scan *)
(* ===================================================================== *)

(** X6.  [deviceSetupPreFlight] accepts a declaration exactly when its
    address is an IPv4 literal and its MAC address, if it has one, is
    valid.  The address is checked first: with a bad address the failure
    is the one about the address, whatever the MAC address; the failure
    about the MAC address is for a good address with a bad MAC address. *)
Theorem preflight_accepts_exactly {helpers : Helpers} (device : UserConfig.t) :
  let ip := UserConfig.ipAddress device in
  let raw := stringifyDevice device in
  (deviceSetupPreFlight device = value tt
   <-> isIPv4 ip = true
       /\ forall mac, UserConfig.mac device = Some mac ->
                      isValidMACAddress mac = true)
  /\ (isIPv4 ip = false ->
      deviceSetupPreFlight device = error (msgInvalidAddress device raw))
  /\ (forall mac, isIPv4 ip = true -> UserConfig.mac device = Some mac ->
                  isValidMACAddress mac = false ->
      deviceSetupPreFlight device = error (msgInvalidMAC device mac raw)).
Proof.
  intros ip raw. unfold deviceSetupPreFlight. fold ip. fold raw.
  destruct (isIPv4 ip) eqn:Eip; simpl.
  - destruct (UserConfig.mac device) as [mac|] eqn:Emac.
    + destruct (isValidMACAddress mac) eqn:Ev; simpl.
      * repeat apply conj; try discriminate.
        -- intros _. split; [reflexivity|]. intros ? [= <-]. exact Ev.
        -- intros _. reflexivity.
        -- intros ? _ [= <-]. congruence.
      * repeat apply conj; try discriminate.
        -- intros [_ H]. specialize (H mac eq_refl). congruence.
        -- intros ? _ [= <-] _. reflexivity.
    + repeat apply conj; try discriminate.
      * intros _. split; [reflexivity|]. discriminate.
      * intros _. reflexivity.
  - repeat apply conj; try discriminate.
    + intros [H _]. discriminate.
    + intros _. reflexivity.
Qed.

Lemma firstAt_passedOver (ip : string) (pre rest : Accessories) :
  Forall (passedOver ip) pre -> firstAt ip (pre ++ rest) = firstAt ip rest.
Proof.
  induction pre as [|[k v] pre IH]; intros H; simpl; [reflexivity|].
  inversion H as [|? ? [Hp Hs] Hpre]; subst.
  unfold populated, storedAt in *. simpl in *.
  destruct (OnDisk.data v) as [d|]; [|congruence].
  rewrite Hs. now apply IH.
Qed.

(** X7.  The scan of [knownWorking] stops at the first entry stored under
    the address: the entries after it are not looked at, whatever they
    are.  And an entry without [data] that the scan reaches before any
    match makes it throw. *)
Theorem knownWorking_stops_at_first_match
    (pre : Accessories) (k : string) (v : OnDisk.t) (post : Accessories)
    (ip : string) :
  Forall (passedOver ip) pre ->
  (forall d, OnDisk.data v = Some d -> OnDisk.ipAddress d = ip ->
     knownWorking (pre ++ (k, v) :: post) ip
     = Returned (mkObj (Some k) (OnDisk.specs d)))
  /\ (OnDisk.data v = None ->
      exists e, knownWorking (pre ++ (k, v) :: post) ip = Thrown e).
Proof.
  intros Hpre. unfold knownWorking.
  assert (Hne : JSObject.isEmpty (pre ++ (k, v) :: post) = false)
    by (destruct pre; reflexivity).
  rewrite Hne, firstAt_passedOver by exact Hpre. simpl. split.
  - intros d -> <-. now rewrite String.eqb_refl.
  - intros ->. eexists. reflexivity.
Qed.

(** How far the scan gets: through the whole store, to a match, or to an
    entry without [data]. *)
Lemma firstAt_cases (ip : string) (m : Accessories) :
  match firstAt ip m with
  | Returned None => Forall (passedOver ip) m
  | Returned (Some (k, s)) =>
      exists pre v d post,
        m = pre ++ (k, v) :: post /\ Forall (passedOver ip) pre
        /\ OnDisk.data v = Some d /\ OnDisk.ipAddress d = ip
        /\ OnDisk.specs d = s
  | Thrown e =>
      exists pre k v post,
        m = pre ++ (k, v) :: post /\ Forall (passedOver ip) pre
        /\ OnDisk.data v = None
  end.
Proof.
  induction m as [|[k v] m IH]; simpl; [constructor|].
  destruct (OnDisk.data v) as [d|] eqn:Ed.
  - destruct (String.eqb (OnDisk.ipAddress d) ip) eqn:Eip.
    + apply String.eqb_eq in Eip.
      exists [], v, d, m. repeat split; auto.
    + assert (Hkv : passedOver ip (k, v)).
      { unfold passedOver, populated, storedAt. simpl. rewrite Ed, Eip.
        split; [discriminate|reflexivity]. }
      destruct (firstAt ip m) as [[[k' s']|]|e].
      * destruct IH as (pre & v' & d' & post & -> & Hpre & H).
        exists ((k, v) :: pre), v', d', post. split; [reflexivity|].
        split; [constructor; assumption|exact H].
      * constructor; assumption.
      * destruct IH as (pre & k' & v' & post & -> & Hpre & H).
        exists ((k, v) :: pre), k', v', post. split; [reflexivity|].
        split; [constructor; assumption|exact H].
  - exists [], k, v, m. repeat split; auto.
Qed.

(** X8.  What [knownWorking] can do, on any store.  If it returns specs
    taken from the store, they are the specs of an entry stored under the
    address, with only entries of other addresses before it; if it
    returns a fresh [{}], every entry has data and is stored under
    another address; if it throws, an entry without [data] stands in the
    store with only entries of other addresses before it. *)
Theorem knownWorking_outcomes (m : Accessories) (ip : string) :
  match knownWorking m ip with
  | Returned (mkObj (Some k) s) =>
      exists pre v d post,
        m = pre ++ (k, v) :: post /\ Forall (passedOver ip) pre
        /\ OnDisk.data v = Some d /\ OnDisk.ipAddress d = ip
        /\ OnDisk.specs d = s
  | Returned (mkObj None s) =>
      s = VieraSpecs.empty /\ Forall (passedOver ip) m
  | Thrown e =>
      exists pre k v post,
        m = pre ++ (k, v) :: post /\ Forall (passedOver ip) pre
        /\ OnDisk.data v = None
  end.
Proof.
  unfold knownWorking. destruct m as [|kv m]; [split; [reflexivity|constructor]|].
  cbn [JSObject.isEmpty].
  pose proof (firstAt_cases ip (kv :: m)) as H.
  destruct (firstAt ip (kv :: m)) as [[[k s]|]|e].
  - exact H.
  - split; [reflexivity|exact H].
  - exact H.
Qed.

(* ===================================================================== *)
(** ** More about runs: exceptions, and how often a command is issued *)
(* ===================================================================== *)

Section MoreProgFacts.
Context {A : Type}.
Implicit Types (p q : Prog A) (tr : list Event).

Lemma count_app (P : Cmd -> bool) tr1 tr2 :
  count P (tr1 ++ tr2) = count P tr1 + count P tr2.
Proof. unfold count. now rewrite List.filter_app, length_app. Qed.

Lemma count_cons (P : Cmd -> bool) e tr :
  count P (e :: tr) = (if P (command e) then 1 else 0) + count P tr.
Proof. unfold count. simpl. destruct (P (command e)); reflexivity. Qed.

Lemma atMost_leads (P : Cmd -> bool) tr : forall n p q,
  atMost P n p -> leads p tr q -> count P tr <= n.
Proof.
  induction tr as [|e tr IH]; intros n p q Hp Hl; simpl in *.
  - unfold count. simpl. lia.
  - destruct p as [a|x|c k]; try tauto.
    destruct Hl as (r & -> & Hl). rewrite count_cons, command_event.
    simpl in Hp. destruct (P c).
    + destruct n as [|n]; [tauto|].
      specialize (IH n (k r) q (Hp r) Hl). lia.
    + specialize (IH n (k r) q (Hp r) Hl). lia.
Qed.

Lemma atMost_produces (P : Cmd -> bool) p : forall n tr res,
  atMost P n p -> produces p tr res -> count P tr <= n.
Proof.
  induction p as [a|x|c k IH]; intros n tr res Hp Hr; simpl in *.
  - destruct Hr as [-> _]. unfold count. simpl. lia.
  - destruct Hr as [-> _]. unfold count. simpl. lia.
  - destruct tr as [|e tr]; [tauto|].
    destruct Hr as (r & -> & Hr). rewrite count_cons, command_event.
    destruct (P c).
    + destruct n as [|n]; [tauto|].
      specialize (IH r n tr res (Hp r) Hr). lia.
    + specialize (IH r n tr res (Hp r) Hr). lia.
Qed.

Lemma within_leads tr : forall n p q,
  within n p -> leads p tr q -> length tr <= n.
Proof.
  induction tr as [|e tr IH]; intros n p q Hp Hl; simpl in *; [lia|].
  destruct p as [a|x|c k]; try tauto.
  destruct Hl as (r & -> & Hl). simpl in Hp.
  destruct n as [|n]; [tauto|].
  specialize (IH n (k r) q (Hp r) Hl). lia.
Qed.

Lemma never_leads (P : Cmd -> bool) tr : forall p q,
  never P p -> leads p tr q ->
  Forall (fun e => P (command e) = false) tr.
Proof.
  induction tr as [|e tr IH]; intros p q Hp Hl; simpl in *; [constructor|].
  destruct p as [a|x|c k]; try tauto.
  destruct Hl as (r & -> & Hl). destruct Hp as [Hc Hk].
  constructor; [now rewrite command_event|].
  eapply IH; eauto.
Qed.

End MoreProgFacts.

(** A sequence stopped somewhere: in its first part, or in its second
    after a full run of the first. *)
Lemma leads_bind {A B} (f : A -> Prog B) tr : forall (p : Prog A) (q : Prog B),
  leads (bind p f) tr q ->
  (exists q', leads p tr q' /\ q = bind q' f)
  \/ (exists tr1 a tr2, produces p tr1 (Returned a) /\
                        leads (f a) tr2 q /\ tr = tr1 ++ tr2).
Proof.
  induction tr as [|e tr IH]; intros p q H.
  - simpl in H. left. exists p. split; [reflexivity|now symmetry].
  - destruct p as [a|x|c k].
    + right. exists [], a, (e :: tr). simpl. repeat split; auto.
    + simpl in H. tauto.
    + simpl in H. destruct H as (r & -> & H).
      apply IH in H as [(q' & H1 & ->)|(tr1 & a & tr2 & H1 & H2 & ->)].
      * left. exists q'. split; [|reflexivity]. simpl. exists r. split; auto.
      * right. exists (event c r :: tr1), a, tr2. repeat split; auto.
        simpl. exists r. split; auto.
Qed.

(* ===================================================================== *)
(** ** More about [deviceSetup] *)
(* ===================================================================== *)

Section MoreSetup.
Context {W : Type} (net : Network W) {helpers : Helpers}.
Implicit Types (device : UserConfig.t) (s : Sys W) (tv : VieraTV.t).

(** The run of the first stage, written out. *)
Lemma exec_resolveSpecs device s :
  exec net (resolveSpecs device) s =
  let ip := UserConfig.ipAddress device in
  let (reachable, w1) := livenessProbe net ip (world s) in
  let probed := [EvLivenessProbe ip reachable; EvReadAccessories (stored s)] in
  match knownWorking (stored s) ip with
  | Thrown e => (probed, Thrown e, mkSys w1 (stored s))
  | Returned cached =>
      if negb reachable && VieraSpecs.isEmpty cached then
        (probed ++ [EvReadAccessories (stored s);
                    EvLog LvlError (logUnreachable cached reachable (stored s))],
         Returned (error (msgUnreachable ip)), mkSys w1 (stored s))
      else
        let tv := VieraTV.new ip (UserConfig.mac device) in
        let (specs, w2) := getSpecs net tv w1 in
        if VieraSpecs.isEmpty specs then
          if VieraSpecs.encrypted cached then
            (probed ++ [EvGetSpecs tv specs; EvLog LvlWarn (logUsingCache ip cached)],
             Returned (error (msgOffline ip)), mkSys w2 (stored s))
          else
            (probed ++ [EvGetSpecs tv specs; EvLog LvlWarn (logUsingCache ip cached)],
             Returned (value (VieraTV.setSpecs cached tv)), mkSys w2 (stored s))
        else
          (probed ++ [EvGetSpecs tv specs],
           Returned (value (VieraTV.setSpecs (mkObj None specs) tv)),
           mkSys w2 (stored s))
  end.
Proof.
  unfold resolveSpecs. cbv zeta.
  cbn [exec bind call handle world stored event].
  destruct (livenessProbe net _ _) as [reachable w1].
  cbn [exec bind call handle world stored event].
  destruct (knownWorking (stored s) _) as [cached|e]; [|reflexivity].
  destruct (negb reachable && VieraSpecs.isEmpty cached); [reflexivity|].
  cbn [exec bind call handle world stored event].
  destruct (getSpecs net _ _) as [specs w2].
  destruct (VieraSpecs.isEmpty specs);
    cbn [exec bind call handle world stored event];
    [destruct (VieraSpecs.encrypted cached)|]; reflexivity.
Qed.

(** X9.  An exception of the cache scan escapes.  When the declaration
    passes validation and [knownWorking] throws on the store, the run of
    [deviceSetup] ends right after the liveness probe with that
    exception, the store untouched and nothing else done; and the
    callback of the loop, which does not catch it, ends with the same
    exception: the device is neither published nor logged as
    rejected. *)
Theorem scan_exception_escapes_setup device s reachable w1 e :
  let ip := UserConfig.ipAddress device in
  let tr := [hello device; EvLivenessProbe ip reachable;
             EvReadAccessories (stored s)] in
  deviceSetupPreFlight device = value tt ->
  livenessProbe net ip (world s) = (reachable, w1) ->
  knownWorking (stored s) ip = Thrown e ->
  exec net (deviceSetup device) s = (tr, Thrown e, mkSys w1 (stored s))
  /\ exec net (setupAndPublish device) s = (tr, Thrown e, mkSys w1 (stored s)).
Proof.
  intros ip tr Hpre Hprobe Hscan.
  assert (H : exec net (deviceSetup device) s
              = (tr, Thrown e, mkSys w1 (stored s))).
  { rewrite exec_deviceSetup, Hpre, exec_andThen, exec_resolveSpecs.
    cbv zeta. fold ip. rewrite Hprobe, Hscan. reflexivity. }
  split; [exact H|].
  unfold setupAndPublish. rewrite exec_bind, H. reflexivity.
Qed.

Lemma deviceSetup_atMost device :
  atMost is_probe 1 (deviceSetup device)
  /\ atMost is_getSpecs 1 (deviceSetup device)
  /\ atMost is_handshake 1 (deviceSetup device)
  /\ atMost is_isTurnedOn 1 (deviceSetup device)
  /\ atMost is_getApps 1 (deviceSetup device)
  /\ atMost is_store_write 1 (deviceSetup device).
Proof.
  unfold deviceSetup, andThen, resolveSpecs, encryptionGate, finishSetup.
  repeat apply conj; walk.
Qed.

(** X10.  A run of [deviceSetup] issues each call to the device layer at
    most once (the liveness probe, the specs fetch, the handshake, the
    powered-on check, the application fetch: nothing is retried), writes
    to the store at most once, and makes no network call before the
    liveness probe. *)
Theorem deviceSetup_calls_each_once device s :
  let '(tr, _, _) := exec net (deviceSetup device) s in
  count is_probe tr <= 1 /\ count is_getSpecs tr <= 1
  /\ count is_handshake tr <= 1 /\ count is_isTurnedOn tr <= 1
  /\ count is_getApps tr <= 1 /\ count is_store_write tr <= 1
  /\ (tr = [hello device]
      \/ exists reachable rest,
           tr = hello device
                :: EvLivenessProbe (UserConfig.ipAddress device) reachable
                :: rest).
Proof.
  destruct (exec net (deviceSetup device) s) as [[tr res] s'] eqn:E.
  pose proof (exec_produces net _ _ E) as Hp.
  destruct (deviceSetup_atMost device) as (H1 & H2 & H3 & H4 & H5 & H6).
  repeat apply conj;
    try (eapply atMost_produces; [|exact Hp]; assumption).
  rewrite exec_deviceSetup in E.
  destruct (deviceSetupPreFlight device) as [[]|msg].
  - right. rewrite exec_andThen, exec_resolveSpecs in E. cbv zeta in E.
    unfold after in E.
    destruct (livenessProbe net _ _) as [reachable w1].
    exists reachable.
    destruct (knownWorking (stored s) _) as [cached|e];
      [|simpl in E; injection E as <- _ _; eexists; reflexivity].
    destruct (negb reachable && VieraSpecs.isEmpty cached);
      [simpl in E; injection E as <- _ _; eexists; reflexivity|].
    destruct (getSpecs net _ _) as [specs w2].
    destruct (VieraSpecs.isEmpty specs);
      [destruct (VieraSpecs.encrypted cached)|];
      cbv beta iota in E;
      try destruct (exec net (gateAndFinish device _) _) as [[tr2 r2] s2];
      simpl in E; injection E as <- _ _; eexists; reflexivity.
  - left. injection E as <- _ _. reflexivity.
Qed.

(** *** What setup does to the store *)

Lemma keys_writeCachedName key name (m : Accessories) :
  JSObject.keys (writeCachedName key name m) = JSObject.keys m.
Proof.
  unfold writeCachedName, JSObject.keys. rewrite map_map.
  apply map_ext. intros [k v]. simpl.
  destruct (String.eqb k key); reflexivity.
Qed.

Lemma firstAt_key (ip : string) (m : Accessories) key cached :
  firstAt ip m = Returned (Some (key, cached)) -> In key (JSObject.keys m).
Proof.
  induction m as [|[k v] m IH]; simpl; [discriminate|].
  destruct (OnDisk.data v) as [d|]; [|discriminate].
  destruct (String.eqb (OnDisk.ipAddress d) ip).
  - intros [= <- _]. now left.
  - intros H. right. now apply IH.
Qed.

Lemma writeCachedName_other key name (m : Accessories) :
  ~ In key (JSObject.keys m) -> writeCachedName key name m = m.
Proof.
  unfold writeCachedName.
  induction m as [|[k v] m IH]; simpl; [reflexivity|].
  intros H. destruct (String.eqb k key) eqn:E.
  - apply String.eqb_eq in E. tauto.
  - f_equal. apply IH. tauto.
Qed.

Lemma writeCachedName_cons key name (kv : string * OnDisk.t) (m : Accessories) :
  writeCachedName key name (kv :: m)
  = (if String.eqb (fst kv) key then
       (fst kv,
        match OnDisk.data (snd kv) with
        | Some d =>
            OnDisk.mk
              (Some (OnDisk.mkData (OnDisk.ipAddress d)
                       (VieraSpecs.setFriendlyName name (OnDisk.specs d))))
              (OnDisk.apps (snd kv))
        | None => snd kv
        end)
     else kv) :: writeCachedName key name m.
Proof. reflexivity. Qed.

(** Writing into the entry the specs came from the name they have
    changes nothing, in an object (no key twice). *)
Lemma writeCachedName_same (ip : string) (m : Accessories) key cached :
  JSObject.wf m ->
  firstAt ip m = Returned (Some (key, cached)) ->
  writeCachedName key (VieraSpecs.friendlyName cached) m = m.
Proof.
  unfold JSObject.wf.
  induction m as [|[k v] m IH]; intros Hwf HF; simpl in Hwf, HF;
    [discriminate|].
  destruct Hwf as [Hall Hord].
  assert (Hk : ~ In k (JSObject.keys m)).
  { intros Hin. rewrite Forall_forall in Hall.
    apply list_elem_of_In in Hin. destruct (Hall k Hin) as [Hne _]. congruence. }
  rewrite writeCachedName_cons. cbn [fst snd].
  destruct (OnDisk.data v) as [d|] eqn:Ed; [|discriminate].
  destruct (String.eqb (OnDisk.ipAddress d) ip).
  - injection HF as <- <-.
    rewrite String.eqb_refl, writeCachedName_other by exact Hk.
    f_equal. f_equal. destruct v as [dv av]. simpl in *. subst dv.
    f_equal. f_equal. destruct d as [ipd [fn mn sn re]]. reflexivity.
  - pose proof (firstAt_key _ _ HF) as Hin.
    assert (String.eqb k key = false) as ->.
    { apply String.eqb_neq. intros ->. tauto. }
    f_equal. now apply IH.
Qed.

Lemma gateAndFinish_store device tv s :
  let name := nullish (UserConfig.friendlyName device)
                      (VieraSpecs.friendlyName (VieraTV.specs tv)) in
  let '(_, _, s') := exec net (gateAndFinish device tv) s in
  stored s' = stored s \/ stored s' = stored (renamed tv name s).
Proof.
  intros name. unfold gateAndFinish.
  rewrite exec_andThen, exec_encryptionGate. cbv zeta.
  destruct tv as [addr mac [own spec] aid akey].
  unfold name. clear name. simpl.
  destruct (VieraSpecs.encrypted spec).
  - destruct (UserConfig.appId device) as [appId|];
      [destruct (UserConfig.encKey device) as [encKey|]|];
      try (left; reflexivity).
    destruct (requestSessionId net _ _) as [[[]|reason] w2];
      [|left; reflexivity].
    cbv beta iota. rewrite (exec_finishSetup net). cbv zeta.
    destruct (firstTime _ _);
      [destruct (isTurnedOn net _ _) as [[|] w3]; cbn [negb];
       [destruct (UserConfig.disabledAppSupport device) as [[|]|];
        try destruct (getApps net _ _) as [cmd w4]|]|];
      unfold renamed; simpl; destruct own; simpl; auto.
  - cbv beta iota. rewrite (exec_finishSetup net). cbv zeta.
    destruct (firstTime _ _);
      [destruct (isTurnedOn net _ _) as [[|] w3]; cbn [negb];
       [destruct (UserConfig.disabledAppSupport device) as [[|]|];
        try destruct (getApps net _ _) as [cmd w4]|]|];
      unfold renamed; simpl; destruct own; simpl; auto.
Qed.

(** X11.  What [deviceSetup] does to the in-memory store: nothing, or one
    write of the friendly name into the entry whose specs [knownWorking]
    handed out (the television object shares them, so the assignment at
    line 173 lands in the store).  It never adds, removes or reorders a
    key.  When the declaration has no [friendlyName], the name written is
    the one the entry has, and the store (an object: no key twice) is
    left as it was. *)
Theorem deviceSetup_store_frame device s :
  let ip := UserConfig.ipAddress device in
  let '(_, _, s') := exec net (deviceSetup device) s in
  (stored s' = stored s
   \/ exists key cached,
        knownWorking (stored s) ip = Returned (mkObj (Some key) cached)
        /\ stored s'
           = writeCachedName key
               (nullish (UserConfig.friendlyName device)
                        (VieraSpecs.friendlyName cached))
               (stored s))
  /\ JSObject.keys (stored s') = JSObject.keys (stored s)
  /\ (JSObject.wf (stored s) -> UserConfig.friendlyName device = None ->
      stored s' = stored s).
Proof.
  intros ip.
  destruct (exec net (deviceSetup device) s) as [[tr res] s'] eqn:E.
  assert (H : stored s' = stored s
              \/ exists key cached,
                   knownWorking (stored s) ip = Returned (mkObj (Some key) cached)
                   /\ stored s'
                      = writeCachedName key
                          (nullish (UserConfig.friendlyName device)
                                   (VieraSpecs.friendlyName cached))
                          (stored s)).
  { rewrite exec_deviceSetup in E.
    destruct (deviceSetupPreFlight device) as [[]|msg];
      [|injection E as _ _ <-; now left].
    rewrite exec_andThen, exec_resolveSpecs in E. cbv zeta in E.
    fold ip in E. unfold after in E.
    destruct (livenessProbe net ip (world s)) as [reachable w1].
    destruct (knownWorking (stored s) ip) as [cached|e];
      [|simpl in E; injection E as _ _ <-; now left].
    destruct (negb reachable && VieraSpecs.isEmpty cached);
      [simpl in E; injection E as _ _ <-; now left|].
    destruct (getSpecs net _ _) as [specs w2].
    destruct (VieraSpecs.isEmpty specs);
      [destruct (VieraSpecs.encrypted cached);
       [simpl in E; injection E as _ _ <-; now left|]|];
      cbv beta iota in E.
    - pose proof (gateAndFinish_store device
                    (VieraTV.setSpecs cached
                       (VieraTV.new ip (UserConfig.mac device)))
                    (mkSys w2 (stored s))) as HG.
      cbv zeta in HG.
      destruct (exec net (gateAndFinish device _) _) as [[tr2 r2] s2].
      simpl in E. injection E as _ _ <-.
      destruct HG as [HG|HG]; [now left|].
      destruct cached as [[key|] c]; [|now left].
      right. exists key, c. split; [reflexivity|exact HG].
    - pose proof (gateAndFinish_store device
                    (VieraTV.setSpecs (mkObj None specs)
                       (VieraTV.new ip (UserConfig.mac device)))
                    (mkSys w2 (stored s))) as HG.
      cbv zeta in HG.
      destruct (exec net (gateAndFinish device _) _) as [[tr2 r2] s2].
      simpl in E. injection E as _ _ <-.
      destruct HG as [HG|HG]; now left. }
  split; [exact H|]. split.
  - destruct H as [->|(key & cached & _ & ->)]; [reflexivity|].
    apply keys_writeCachedName.
  - intros Hwf Hname.
    destruct H as [->|(key & cached & HK & ->)]; [reflexivity|].
    rewrite Hname. simpl.
    unfold knownWorking in HK.
    destruct (JSObject.isEmpty (stored s)); [discriminate|].
    destruct (firstAt ip (stored s)) as [[[k c]|]|e] eqn:EF; try discriminate.
    injection HK as <- <-.
    eapply writeCachedName_same; eauto.
Qed.

(** *** Paths through the pipeline *)

(** X12.  Setup from the cache alone.  The television does not answer the
    probe and the specs fetch comes back empty; the store has specs for
    the address that do not require encryption, and an entry under their
    serial number.  Then [deviceSetup] succeeds after these two calls and
    no other: no handshake, no powered-on check, no application fetch.
    The accessory is named by the declaration or else by the cached
    specs, carries the cached serial number, and has an empty application
    list. *)
Theorem setup_from_cache_alone device s w1 cached specs w2 :
  let ip := UserConfig.ipAddress device in
  let tv0 := VieraTV.new ip (UserConfig.mac device) in
  let tv1 := VieraTV.setSpecs cached tv0 in
  let name := nullish (UserConfig.friendlyName device)
                      (VieraSpecs.friendlyName cached) in
  let tv := VieraTV.setFriendlyName name tv1 in
  let s' := renamed tv1 name (mkSys w2 (stored s)) in
  deviceSetupPreFlight device = value tt ->
  livenessProbe net ip (world s) = (false, w1) ->
  knownWorking (stored s) ip = Returned cached ->
  VieraSpecs.isEmpty cached = false ->
  VieraSpecs.requiresEncryption cached <> Some true ->
  getSpecs net tv0 w1 = (specs, w2) ->
  VieraSpecs.isEmpty specs = true ->
  JSObject.get (propertyKey (VieraSpecs.serialNumber cached)) (stored s) <> None ->
  exec net (deviceSetup device) s
  = ([hello device; EvLivenessProbe ip false; EvReadAccessories (stored s);
      EvGetSpecs tv0 specs; EvLog LvlWarn (logUsingCache ip cached)]
       ++ renaming tv1 name ++ [EvReadAccessories (stored s')],
     Returned (value (mkVieramatic
                        (mkAccessory name (VieraSpecs.serialNumber cached)
                                     TELEVISION (Some tv))
                        device [])),
     s')
  /\ count is_network_call
           ([hello device; EvLivenessProbe ip false; EvReadAccessories (stored s);
             EvGetSpecs tv0 specs; EvLog LvlWarn (logUsingCache ip cached)]
              ++ renaming tv1 name ++ [EvReadAccessories (stored s')]) = 2.
Proof.
  intros ip tv0 tv1 name tv s' Hpre Hprobe Hknown Hcached Henc Hspecs Hempty Hentry.
  assert (Hne : VieraSpecs.encrypted cached = false).
  { unfold VieraSpecs.encrypted.
    destruct (VieraSpecs.requiresEncryption cached) as [[|]|]; congruence. }
  split.
  - rewrite exec_deviceSetup, Hpre, exec_andThen, exec_resolveSpecs.
    cbv zeta. fold ip. rewrite Hprobe, Hknown, Hcached. simpl negb. simpl andb.
    fold tv0. rewrite Hspecs, Hempty, Hne. cbv beta iota.
    unfold gateAndFinish. rewrite exec_andThen, exec_encryptionGate.
    cbv zeta. fold tv1.
    assert (VieraSpecs.encrypted (VieraTV.specs tv1) = false) as -> by exact Hne.
    cbv beta iota. rewrite (exec_finishSetup net). cbv zeta.
    change (VieraSpecs.friendlyName (VieraTV.specs tv1))
      with (VieraSpecs.friendlyName cached).
    change (VieraSpecs.serialNumber (VieraTV.specs tv1))
      with (VieraSpecs.serialNumber cached).
    fold name. fold tv.
    pose proof (firstTime_renamed tv1 name (mkSys w2 (stored s))) as Hft.
    assert (Hf : firstTime tv1 (stored s) = false)
      by (apply firstTime_false; left; exact Hentry).
    cbn [stored] in Hft. rewrite Hf in Hft. fold tv s' in Hft. fold s'.
    rewrite Hft. reflexivity.
  - unfold renaming. destruct (owner (VieraTV.specs tv1)); reflexivity.
Qed.

(** X13.  When the resolved specs do not require encryption, the
    credentials of the declaration play no part: whatever [appId] and
    [encKey] are, setup goes straight from the resolution to the name
    override with the television object as resolved, and the run has no
    key derivation and no handshake. *)
Theorem credentials_unused_without_encryption device s tr1 tv1 s1 :
  deviceSetupPreFlight device = value tt ->
  exec net (resolveSpecs device) s = (tr1, Returned (value tv1), s1) ->
  VieraSpecs.requiresEncryption (VieraTV.specs tv1) <> Some true ->
  exec net (deviceSetup device) s
  = after (hello device :: tr1) (exec net (finishSetup device tv1) s1)
  /\ let '(tr, _, _) := exec net (deviceSetup device) s in
     Forall (fun e => is_negotiation (command e) = false) tr.
Proof.
  intros Hpre H1 Henc.
  assert (Hne : VieraSpecs.encrypted (VieraTV.specs tv1) = false).
  { unfold VieraSpecs.encrypted.
    destruct (VieraSpecs.requiresEncryption (VieraTV.specs tv1)) as [[|]|];
      congruence. }
  assert (Hrun : exec net (deviceSetup device) s
                 = after (hello device :: tr1) (exec net (finishSetup device tv1) s1)).
  { erewrite exec_deviceSetup_resolved; [|exact Hpre|exact H1].
    unfold gateAndFinish. rewrite exec_andThen, exec_encryptionGate.
    cbv zeta. rewrite Hne. cbv beta iota.
    destruct (exec net (finishSetup device tv1) s1) as [[tr3 r3] s3].
    reflexivity. }
  split; [exact Hrun|].
  rewrite Hrun.
  destruct (exec net (finishSetup device tv1) s1) as [[tr3 r3] s3] eqn:E3.
  simpl. constructor; [reflexivity|]. rewrite Forall_app. split.
  - eapply exec_never; [apply resolveSpecs_never_negotiates|exact H1].
  - eapply exec_never; [|exact E3]. unfold finishSetup. walk.
Qed.

(** X14.  A handshake that is refused ends setup: the failure is built
    around the address and the reason the handshake gave, the handshake
    is not tried again, nothing of the first-time initialisation is
    asked, and the store is as it was. *)
Theorem refused_handshake_ends_setup
    device s tr1 tv1 s1 appId encKey reason w2 :
  let ip := UserConfig.ipAddress device in
  let tv := VieraTV.setAuth appId encKey tv1 in
  deviceSetupPreFlight device = value tt ->
  exec net (resolveSpecs device) s = (tr1, Returned (value tv1), s1) ->
  VieraSpecs.requiresEncryption (VieraTV.specs tv1) = Some true ->
  UserConfig.appId device = Some appId ->
  UserConfig.encKey device = Some encKey ->
  requestSessionId net tv (deriveSessionKey net tv encKey (world s1))
  = (error reason, w2) ->
  exec net (deviceSetup device) s
  = (hello device :: tr1
       ++ [EvDeriveSessionKey tv encKey; EvRequestSessionId tv (error reason)],
     Returned (error (msgBadCredentials ip tv reason)),
     mkSys w2 (stored s))
  /\ (exists fmt args,
        msgBadCredentials ip tv reason = printf fmt args
        /\ In (AStr ip) args /\ In (AStr reason) args)
  /\ Forall (fun e => is_first_time_query (command e) = false)
            (hello device :: tr1
               ++ [EvDeriveSessionKey tv encKey;
                   EvRequestSessionId tv (error reason)])
  /\ count is_handshake
           (hello device :: tr1
              ++ [EvDeriveSessionKey tv encKey;
                  EvRequestSessionId tv (error reason)]) = 1.
Proof.
  intros ip tv Hpre H1 Henc Happ Hkey Hreq.
  assert (Hs1 : stored s1 = stored s)
    by (eapply exec_store_unchanged; [apply resolveSpecs_never_writes|exact H1]).
  repeat apply conj.
  - erewrite exec_deviceSetup_resolved; [|exact Hpre|exact H1].
    erewrite exec_gateAndFinish_refused; [reflexivity|].
    rewrite exec_encryptionGate. cbv zeta.
    unfold VieraSpecs.encrypted. rewrite Henc, Happ, Hkey.
    fold tv. rewrite Hreq, Hs1. reflexivity.
  - eexists _, _. split; [reflexivity|]. simpl. auto.
  - constructor; [reflexivity|]. rewrite Forall_app. split.
    + eapply exec_never; [apply resolveSpecs_never_first_time|exact H1].
    + repeat constructor.
  - rewrite count_cons, count_app. simpl.
    assert (count is_handshake tr1 = 0) as ->.
    { assert (Hn : never is_handshake (resolveSpecs device))
        by (unfold resolveSpecs; walk).
      assert (HF : Forall (fun e => is_handshake (command e) = false) tr1)
        by (eapply exec_never; [exact Hn|exact H1]).
      clear - HF. unfold count.
      induction HF as [|e l He _ IH]; simpl; [reflexivity|].
      rewrite He. exact IH. }
    reflexivity.
Qed.

(** X16.  Without a readable cache document every device is new.  Over a
    disk whose cache file is missing or is not JSON, the platform starts
    with an empty store, the cache scan finds nothing for any address,
    and a valid declaration whose television does not answer the probe
    is rejected with the message that it was never seen, after that one
    call. *)
Theorem unreadable_cache_means_never_seen
    (api : API) (d : Disk.t) (w w1 : W) device :
  let path := path_join (cachedAccessoryPath api) "vieramatic.json" in
  let ip := UserConfig.ipAddress device in
  let s := booted api d w in
  d !! path = None \/ d !! path = Some Disk.Garbage ->
  stored s = []
  /\ (forall address,
        knownWorking (stored s) address = Returned (mkObj None VieraSpecs.empty))
  /\ (deviceSetupPreFlight device = value tt ->
      livenessProbe net ip w = (false, w1) ->
      exec net (deviceSetup device) s
      = ([hello device; EvLivenessProbe ip false; EvReadAccessories [];
          EvReadAccessories [];
          EvLog LvlError
                (logUnreachable VieraSpecs.empty false [])],
         Returned (error (msgUnreachable ip)), mkSys w1 [])).
Proof.
  intros path ip s Hd.
  assert (Hs : stored s = []).
  { unfold s, booted, Storage.new, Disk.readJsonSync. fold path. simpl.
    destruct Hd as [-> | ->]; reflexivity. }
  split; [exact Hs|]. split.
  - intros address. rewrite Hs. reflexivity.
  - intros Hpre Hprobe.
    rewrite exec_deviceSetup, Hpre, exec_andThen, exec_resolveSpecs.
    cbv zeta. fold ip.
    assert (Hw : world s = w) by reflexivity.
    rewrite Hw, Hprobe, Hs. reflexivity.
Qed.

End MoreSetup.

(* ===================================================================== *)
(** ** More about discovery *)
(* ===================================================================== *)

Section MoreDiscovery.
Context {W : Type} (net : Network W) {helpers : Helpers}.

Lemma exec_restore cached : forall (p : Platform) (s : Sys W),
  exec net (restore cached p) s
  = (map logRestored cached,
     Returned (mkPlatform (accessories p ++ cached) (tvs p)), s).
Proof.
  induction cached as [|a cached IH]; intros p s.
  - simpl. rewrite app_nil_r. destruct p; reflexivity.
  - simpl. rewrite IH. simpl. rewrite <- app_assoc. reflexivity.
Qed.

Lemma exec_unregister_all (l : list PlatformAccessory) (k : Prog unit)
    (s : Sys W) :
  exec net (forEach l (fun a => call (UnregisterPlatformAccessories a)) ;; k) s
  = after (map EvUnregister l) (exec net k s).
Proof.
  induction l as [|a l IH]; simpl.
  - destruct (exec net k s) as [[tr r] s']. reflexivity.
  - simpl in IH. rewrite IH.
    destruct (exec net k s) as [[tr r] s']. reflexivity.
Qed.

Lemma exec_prologue (p : Platform) (s : Sys W) :
  exec net (discoverDevices_prologue p) s
  = (map EvUnregister (accessories p) ++ [EvWebSetup], Returned tt, s).
Proof.
  unfold discoverDevices_prologue. rewrite exec_unregister_all. reflexivity.
Qed.

(** X15.  From start-up to the loop.  The host hands its cached
    accessories to [configureAccessory] one by one; each is logged and
    kept, in order.  [discoverDevices] then unregisters every one of
    them, each once and in the order they were handed over, before the
    web setup is started and before a task of the loop exists; the store
    and the network are not touched by either, and the loop starts one
    task for each declared device. *)
Theorem restored_accessories_are_unregistered
    (cached : list PlatformAccessory) (declared : list UserConfig.t)
    (s : Sys W) (schedule : list nat) :
  let '(tr, res, s1) := exec net (restore cached (constructed declared)) s in
  tr = map logRestored cached
  /\ s1 = s
  /\ exists p,
       res = Returned p
       /\ accessories p = cached
       /\ tvs p = declared
       /\ exec net (discoverDevices_prologue p) s1
          = (map EvUnregister cached ++ [EvWebSetup], Returned tt, s)
       /\ fst (discoverDevices net p s1 []) = map EvUnregister cached ++ [EvWebSetup]
       /\ length (tasks (snd (discoverDevices net p s1 schedule)))
          = length declared.
Proof.
  rewrite exec_restore. simpl.
  split; [reflexivity|]. split; [reflexivity|].
  eexists. split; [reflexivity|]. simpl.
  split; [reflexivity|]. split; [reflexivity|].
  unfold discoverDevices. rewrite exec_prologue. simpl.
  split; [reflexivity|]. split; [reflexivity|].
  unfold discoverDevices_tasks. simpl.
  assert (Hlen : forall sch (P : Pool W),
             length (tasks (run net sch P)) = length (tasks P)).
  { induction sch as [|j sch IH]; intros P; simpl; [reflexivity|].
    rewrite IH. unfold turn.
    destruct (crashed P); [reflexivity|].
    destruct (tasks P !! j) as [[a|x|c k]|]; try reflexivity.
    destruct (handle net c (sys P)) as [r s']. simpl.
    apply length_insert. }
  rewrite Hlen. simpl. apply length_map.
Qed.

Lemma setupAndPublish_atMost device :
  atMost is_network_call 5 (setupAndPublish device)
  /\ atMost is_publish 1 (setupAndPublish device)
  /\ atMost is_store_write 1 (setupAndPublish device).
Proof.
  unfold setupAndPublish, deviceSetup, andThen, resolveSpecs, encryptionGate,
    finishSetup.
  repeat apply conj; walk.
Qed.

(** What the journal has of a task is a run of its program, so far. *)
Lemma discovery_tracks (p : Platform) (s0 : Sys W) schedule i device :
  tvs p !! i = Some device ->
  exists q,
    leads (setupAndPublish device)
          (eventsOf i (journal (snd (discoverDevices net p s0 schedule)))) q.
Proof.
  intros Hi. unfold discoverDevices. rewrite exec_prologue. simpl.
  pose proof (@tracks_run W net (discoverDevices_tasks p) schedule
                (mkPool (discoverDevices_tasks p) s0 [])
                (tracks_init _ _)) as HT.
  destruct (HT i _ (lookup_tasks p i Hi)) as (q & _ & Hl).
  exists q. exact Hl.
Qed.

(** X17.  However the turns are interleaved and wherever the schedule
    stops, the task of a declared device has issued at most five calls
    to the device layer, published at most one accessory, written to the
    store at most once, and issued no more commands than the budget of a
    task. *)
Theorem discovery_bounds_each_task
    (p : Platform) (s0 : Sys W) (schedule : list nat) i device :
  tvs p !! i = Some device ->
  let '(_, P) := discoverDevices net p s0 schedule in
  let tr := eventsOf i (journal P) in
  length tr <= taskBudget
  /\ count is_network_call tr <= 5
  /\ count is_publish tr <= 1
  /\ count is_store_write tr <= 1.
Proof.
  intros Hi.
  destruct (discovery_tracks p s0 schedule i Hi) as (q & Hl).
  destruct (discoverDevices net p s0 schedule) as [tr0 P]. simpl in Hl.
  cbv zeta.
  destruct (setupAndPublish_atMost device) as (Hn & Hp & Hw).
  repeat apply conj.
  - eapply within_leads; [apply setupAndPublish_within|exact Hl].
  - eapply atMost_leads; [exact Hn|exact Hl].
  - eapply atMost_leads; [exact Hp|exact Hl].
  - eapply atMost_leads; [exact Hw|exact Hl].
Qed.

(** X19.  Nothing is published for a device whose setup has not returned
    an accessory.  However the turns are interleaved and wherever the
    schedule stops, if the task of a declared device has published an
    accessory, then its events so far begin with a complete run of
    [deviceSetup] that returned this accessory, the publication follows
    it at once, and after it there is at most the line that reports the
    success. *)
Theorem publish_only_after_success
    (p : Platform) (s0 : Sys W) (schedule : list nat) i device a :
  tvs p !! i = Some device ->
  let '(_, P) := discoverDevices net p s0 schedule in
  In (EvPublish a) (eventsOf i (journal P)) ->
  exists tr v rest,
    produces (deviceSetup device) tr (Returned (value v))
    /\ a = accessory v
    /\ eventsOf i (journal P) = tr ++ EvPublish a :: rest
    /\ (rest = [] \/ rest = [EvLog LvlInfo (logLoaded a)]).
Proof.
  intros Hi.
  destruct (discovery_tracks p s0 schedule i Hi) as (q & Hl).
  destruct (discoverDevices net p s0 schedule) as [tr0 P]. simpl in Hl.
  intros Hin.
  assert (Hno : forall l, Forall (fun e => is_publish (command e) = false) l ->
                          In (EvPublish a) l -> False).
  { intros l HF HI. rewrite List.Forall_forall in HF.
    specialize (HF _ HI). discriminate. }
  unfold setupAndPublish in Hl.
  apply leads_bind in Hl as [(q' & H1 & _)|(tr1 & o & tr2 & H1 & H2 & Heq)].
  - exfalso. eapply Hno; [|exact Hin].
    eapply never_leads; [apply deviceSetup_never_publishes|exact H1].
  - assert (H1' : Forall (fun e => is_publish (command e) = false) tr1)
      by (eapply never_produces; [apply deviceSetup_never_publishes|exact H1]).
    rewrite Heq in Hin. apply in_app_or in Hin as [Hin|Hin];
      [exfalso; eapply Hno; eauto|].
    destruct o as [v|msg].
    + destruct tr2 as [|e1 tr2]; [destruct Hin|].
      simpl in H2. destruct H2 as ([] & -> & H2).
      destruct tr2 as [|e2 tr2].
      * destruct Hin as [[= <-]|[]].
        exists tr1, v, []. repeat apply conj; auto.
      * simpl in H2. destruct H2 as ([] & -> & H2).
        destruct tr2 as [|e3 tr2]; [|simpl in H2; destruct H2].
        destruct Hin as [[= <-]|[Hin|[]]]; [|discriminate].
        exists tr1, v, [EvLog LvlInfo (logLoaded (accessory v))].
        repeat apply conj; auto.
    + exfalso. destruct tr2 as [|e1 tr2]; [destruct Hin|].
      simpl in H2. destruct H2 as ([] & -> & H2).
      destruct tr2 as [|e2 tr2]; [|simpl in H2; destruct H2].
      destruct Hin as [Hin|[]]. discriminate.
Qed.

End MoreDiscovery.

(* ===================================================================== *)
(** ** The theorems at work *)
(* ===================================================================== *)

#[local] Existing Instance Demo.helpers.

(** The helpers of the example, tried. *)
Example isIPv4_examples :
  Demo.isIPv4 "10.0.0.5" = true /\ Demo.isIPv4 "10.0.0.256" = false
  /\ Demo.isIPv4 "10.0.0" = false /\ Demo.isIPv4 "010.0.0.1" = false.
Proof. repeat split; reflexivity. Qed.

Example isValidMACAddress_examples :
  Demo.isValidMACAddress "00:1B:44:11:3a:B7" = true
  /\ Demo.isValidMACAddress "00:1B:44:11:3a" = false
  /\ Demo.isValidMACAddress "00:1B:44:11:3a:ZZ" = false.
Proof. repeat split; reflexivity. Qed.

Example printf_examples :
  Demo.printf "unable to reach '%s' (%s)" [AStr "10.0.0.5"; AOpt None]
  = "unable to reach '10.0.0.5' (undefined)"
  /\ Demo.printf "IGNORING '%s'" [AStr "10.0.0.5"; AStr "for now."]
     = "IGNORING '10.0.0.5' for now.".
Proof. split; reflexivity. Qed.

(** [JSObject.inherited] tried. *)
Example inherited_examples :
  JSObject.inherited "toString" = true /\ JSObject.inherited "__proto__" = true
  /\ JSObject.inherited "SN-7" = false /\ JSObject.inherited "undefined" = false.
Proof. repeat split; reflexivity. Qed.

(** C8 at work: an unknown key gets an empty entry, in memory only. *)
Example Storage_get_unknown_key :
  let '(entry, e') := Storage.get "SN-7" Demo.onDisk in
  entry = JSObject.Own OnDisk.empty
  /\ JSObject.keys (Storage.accessories (Storage.this e')) = ["42"; "SN-9"; "SN-7"]
  /\ Storage.disk e' = ∅.
Proof. repeat split; reflexivity. Qed.


(** Witness of C9: the store of the example, saved to an empty disk and
    loaded again. *)
Lemma save_then_load_witness :
  JSObject.wf Demo.cache
  /\ Storage.accessories
       (Storage.this (Storage.new Demo.api (Storage.disk (Storage.save Demo.onDisk))))
     = Demo.cache.
Proof.
  assert (H : JSObject.wf Demo.cache)
    by (apply JSObjectFacts.orderedb_sound; vm_compute; reflexivity).
  split; [exact H|].
  apply (@save_then_load_roundtrip Demo.api Demo.onDisk); [reflexivity|exact H].
Defined.

(** Witness of C10: the scan of the example store for [10.0.0.9]. *)
Lemma knownWorking_witness :
  Forall populated Demo.cache
  /\ knownWorking Demo.cache "10.0.0.9" = Returned Demo.cached9.
Proof.
  assert (H : Forall populated Demo.cache)
    by (repeat constructor; discriminate).
  split; [exact H|].
  apply (@knownWorking_first_match Demo.cache "10.0.0.9" H).
Defined.

(** Witness of C4: [10.0.0.256] is rejected before any call. *)
Lemma invalid_declaration_witness :
  isIPv4 (UserConfig.ipAddress Demo.declaredBad) = false
  /\ exists fmt args,
       deviceSetupPreFlight Demo.declaredBad = error (printf fmt args)
       /\ In (AStr (stringifyDevice Demo.declaredBad)) args
       /\ exec Demo.network (deviceSetup Demo.declaredBad) Demo.fresh
          = ([hello Demo.declaredBad], Returned (error (printf fmt args)), Demo.fresh)
       /\ Forall (fun e => is_network_call (command e) = false)
                 [hello Demo.declaredBad].
Proof.
  split; [reflexivity|].
  apply (@invalid_declaration_rejected_before_io _ Demo.network Demo.helpers Demo.declaredBad Demo.fresh).
  left. reflexivity.
Defined.

(** Witness of C5: [10.0.0.7] requires encryption and the declaration has
    no [encKey]; the run stops after the specs are fetched. *)
Lemma missing_credentials_witness :
  deviceSetupPreFlight Demo.declared7 = value tt
  /\ VieraSpecs.requiresEncryption (VieraTV.specs Demo.tv7) = Some true
  /\ UserConfig.encKey Demo.declared7 = None
  /\ let '(tr1, _, s1) := exec Demo.network (resolveSpecs Demo.declared7) Demo.fresh in
     exec Demo.network (deviceSetup Demo.declared7) Demo.fresh
     = (hello Demo.declared7 :: tr1,
        Returned (error (msgNoCredentials "10.0.0.7" Demo.tv7)), s1)
     /\ Forall (fun e => is_negotiation (command e) = false)
               (hello Demo.declared7 :: tr1).
Proof.
  do 3 (split; [reflexivity|]).
  destruct (exec Demo.network (resolveSpecs Demo.declared7) Demo.fresh)
    as [[tr1 r1] s1] eqn:E.
  apply (@missing_credentials_stop_before_negotiation
           _ Demo.network Demo.helpers Demo.declared7 Demo.fresh tr1 Demo.tv7 s1).
  - reflexivity.
  - vm_compute in E. injection E as <- <- <-. vm_compute. reflexivity.
  - reflexivity.
  - right. reflexivity.
Defined.

(** Witness of C1: [10.0.0.8] requires encryption, the declaration has
    both credentials and the handshake succeeds. *)
Lemma encrypted_success_witness :
  let '(tr, res, _) := exec Demo.network (deviceSetup Demo.declared8) Demo.fresh in
  res = Returned (value Demo.accessory8)
  /\ VieraSpecs.requiresEncryption (VieraTV.specs Demo.tv8named) = Some true
  /\ exists appId encKey tv0,
       UserConfig.appId Demo.declared8 = Some appId
       /\ UserConfig.encKey Demo.declared8 = Some encKey
       /\ VieraTV.auth_appId tv0 = Some appId
       /\ VieraTV.auth_key tv0 = Some encKey
       /\ Demo.tv8named
          = VieraTV.setFriendlyName
              (nullish (UserConfig.friendlyName Demo.declared8)
                       (VieraSpecs.friendlyName (VieraTV.specs tv0))) tv0
       /\ In (EvDeriveSessionKey tv0 encKey) tr
       /\ In (EvRequestSessionId tv0 (value tt)) tr.
Proof.
  destruct (exec Demo.network (deviceSetup Demo.declared8) Demo.fresh)
    as [[tr res] s'] eqn:E.
  assert (Hres : res = Returned (value Demo.accessory8))
    by (vm_compute in E; injection E as _ <- _; reflexivity).
  split; [exact Hres|]. split; [reflexivity|].
  subst res.
  apply (@encrypted_success_needs_session
           _ Demo.network Demo.helpers Demo.declared8 Demo.fresh tr
           Demo.accessory8 s' Demo.tv8named E); reflexivity.
Defined.




(** Witness of C3 as amended, and the run that refutes C3 as stated: the
    declaration of [10.0.0.8] names the television "Living Room", its
    specs name it "VIERA". *)
Lemma name_override_witness :
  let '(tr1, _, s1) := exec Demo.network (resolveSpecs Demo.declared8) Demo.fresh in
  deviceSetupPreFlight Demo.declared8 = value tt
  /\ exists tr res s',
       exec Demo.network (deviceSetup Demo.declared8) Demo.fresh
       = (hello Demo.declared8 :: tr1 ++ tr, res, s')
       /\ (forall tv key, In (EvDeriveSessionKey tv key) tr ->
             VieraTV.specs tv = mkObj None Demo.specs8)
       /\ (forall tv r, In (EvRequestSessionId tv r) tr ->
             VieraTV.specs tv = mkObj None Demo.specs8)
       /\ (forall tr2 msg s2,
             exec Demo.network
                  (encryptionGate Demo.declared8
                     (VieraTV.setSpecs (mkObj None Demo.specs8)
                                       (VieraTV.new "10.0.0.8" None))) s1
             = (tr2, Returned (error msg), s2) ->
             res = Returned (error msg) /\ stored s' = stored Demo.fresh)
       /\ (forall v, res = Returned (value v) ->
             displayName (accessory v) = Some "Living Room"
             /\ exists tv,
                  context_device (accessory v) = Some tv
                  /\ VieraTV.specs tv
                     = mkObj None (VieraSpecs.setFriendlyName (Some "Living Room")
                                                              Demo.specs8)).
Proof.
  destruct (exec Demo.network (resolveSpecs Demo.declared8) Demo.fresh)
    as [[tr1 r1] s1] eqn:E.
  split; [reflexivity|].
  apply (@name_override_follows_gate
           _ Demo.network Demo.helpers Demo.declared8 Demo.fresh tr1
           (VieraTV.setSpecs (mkObj None Demo.specs8) (VieraTV.new "10.0.0.8" None))
           s1).
  - reflexivity.
  - vm_compute in E. injection E as <- <- <-. vm_compute. reflexivity.
Defined.

(** C3 as stated fails on this run: the handshake is made on a television
    whose specs still carry the name "VIERA", not the declared "Living
    Room"; the accessory built afterwards is named "Living Room". *)
Lemma gate_runs_before_name_override :
  let '(tr, res, _) := exec Demo.network (deviceSetup Demo.declared8) Demo.fresh in
  UserConfig.friendlyName Demo.declared8 = Some "Living Room"
  /\ In (EvRequestSessionId Demo.tv8 (value tt)) tr
  /\ VieraSpecs.friendlyName (VieraTV.specs Demo.tv8) = Some "VIERA"
  /\ ~ (forall tv r, In (EvRequestSessionId tv r) tr ->
          VieraSpecs.friendlyName (VieraTV.specs tv)
          = UserConfig.friendlyName Demo.declared8)
  /\ exists v, res = Returned (value v)
               /\ displayName (accessory v) = Some "Living Room".
Proof.
  destruct (exec Demo.network (deviceSetup Demo.declared8) Demo.fresh)
    as [[tr res] s'] eqn:E.
  vm_compute in E. injection E as <- <- <-.
  assert (Hin : In (EvRequestSessionId Demo.tv8 (value tt))
                   (fst (fst (exec Demo.network (deviceSetup Demo.declared8) Demo.fresh))))
    by (vm_compute; do 5 right; left; reflexivity).
  vm_compute in Hin.
  split; [reflexivity|]. split; [exact Hin|]. split; [reflexivity|].
  split.
  - intros H. specialize (H _ _ Hin). discriminate H.
  - eexists. split; reflexivity.
Qed.

(** Witness of X20: the cycle of the example.  The second device is
    published although the first is rejected, and whatever the order of
    the turns as long as its task gets them. *)
Lemma discovery_witness :
  tvs Demo.platform !! 1 = Some Demo.declared5
  /\ taskBudget <= count_occ Nat.eq_dec Demo.alternating 1
  /\ crashed (snd (discoverDevices Demo.network Demo.platform Demo.fresh
                                   Demo.alternating)) = false
  /\ let '(_, P) := discoverDevices Demo.network Demo.platform Demo.fresh
                                    Demo.alternating in
     exists tr outcome,
       produces (deviceSetup Demo.declared5) tr (Returned outcome)
       /\ Forall (fun e => is_publish (command e) = false) tr
       /\ tasks P !! 1 = Some (Ret tt)
       /\ match outcome with
          | value v =>
              eventsOf 1 (journal P)
              = tr ++ [EvPublish (accessory v);
                       EvLog LvlInfo (logLoaded (accessory v))]
          | error msg =>
              eventsOf 1 (journal P) = tr ++ [EvLog LvlError (logRejected msg)]
          end.
Proof.
  assert (H1 : tvs Demo.platform !! 1 = Some Demo.declared5) by reflexivity.
  assert (H2 : taskBudget <= count_occ Nat.eq_dec Demo.alternating 1)
    by (vm_compute; lia).
  assert (H3 : crashed (snd (discoverDevices Demo.network Demo.platform
                               Demo.fresh Demo.alternating)) = false)
    by (vm_compute; reflexivity).
  split; [exact H1|]. split; [exact H2|]. split; [exact H3|].
  apply (@discovery_isolates_devices
           _ Demo.network Demo.helpers Demo.platform Demo.fresh Demo.alternating
           1 Demo.declared5 H1 H2 H3).
Defined.

(** C7.  Isolation does not hold for a setup that throws.  The cycle is
    for [10.0.0.6] and [10.0.0.5], over a store with an entry that was
    never filled in.  Run on its own, the setup of [10.0.0.5] succeeds
    and its accessory is published.  The setup of [10.0.0.6] throws at
    the cache scan, and its task ends with the exception: the device is
    not logged as rejected.  Nothing catches the exception, and in the
    cycle [10.0.0.5], whose task is given all the turns it could use, is
    never published, however long the cycle is left to run. *)
Lemma thrown_setup_aborts_discovery :
  let '(_, P) := discoverDevices Demo.network Demo.platform65 Demo.unfinished
                                 Demo.alternating in
  tvs Demo.platform65 = [Demo.declared6; Demo.declared5]
  /\ (exists tr s',
        exec Demo.network (setupAndPublish Demo.declared5) Demo.unfinished
        = (tr, Returned tt, s')
        /\ In (EvPublish Demo.accessory5) tr)
  /\ (exists e s',
        exec Demo.network (setupAndPublish Demo.declared6) Demo.unfinished
        = ([hello Demo.declared6; EvLivenessProbe "10.0.0.6" false;
            EvReadAccessories Demo.halfFilled], Thrown e, s'))
  /\ taskBudget <= count_occ Nat.eq_dec Demo.alternating 1
  /\ (exists e, tasks P !! 0 = Some (Throw e))
  /\ Forall (fun e => is_publish (command (snd e)) = false) (journal P)
  /\ forall more,
       Forall (fun e => is_publish (command (snd e)) = false)
              (journal (run Demo.network more P)).
Proof.
  destruct (discoverDevices Demo.network Demo.platform65 Demo.unfinished
                            Demo.alternating) as [tr0 P] eqn:E.
  assert (Hc : crashed P = true)
    by (vm_compute in E; injection E as _ <-; reflexivity).
  assert (Hj : Forall (fun e => is_publish (command (snd e)) = false) (journal P))
    by (vm_compute in E; injection E as _ <-; repeat constructor).
  split; [reflexivity|]. split.
  { eexists _, _. split; [vm_compute; reflexivity|].
    do 5 right. left. reflexivity. }
  split; [eexists _, _; vm_compute; reflexivity|].
  split; [vm_compute; lia|].
  split; [vm_compute in E; injection E as _ <-; eexists; reflexivity|].
  split; [exact Hj|].
  intros more. rewrite run_crashed by exact Hc. exact Hj.
Qed.

(** The cycle of the example, run: the bad declaration is logged and
    nothing else happens for it; the good one is published. *)
Example discovery_scenario :
  let '(_, P) := discoverDevices Demo.network Demo.platform Demo.fresh
                                 Demo.alternating in
  eventsOf 0 (journal P)
  = [hello Demo.declaredBad;
     EvLog LvlError
           (logRejected (msgInvalidAddress Demo.declaredBad
                           (stringifyDevice Demo.declaredBad)))]
  /\ exists acc,
       displayName acc = Some "Viera 5"
       /\ List.filter (fun e => is_publish (command (snd e))) (journal P)
          = [(1, EvPublish acc)].
Proof.
  vm_compute. split; [reflexivity|]. eexists. split; [|reflexivity]. reflexivity.
Qed.

(** Witness of X1: the first start, over an empty disk. *)
Lemma Storage_new_without_document_witness :
  (∅ : Disk.t) !! path_join (cachedAccessoryPath Demo.api) "vieramatic.json" = None
  /\ Storage.new Demo.api ∅
     = Storage.mkEnv
         (Storage.mk [] (path_join (cachedAccessoryPath Demo.api) "vieramatic.json"))
         ∅.
Proof.
  split; [reflexivity|].
  apply (@Storage_new_without_document Demo.api ∅).
  left. reflexivity.
Defined.

(** Witness of X7: in the store of the example the scan for [10.0.0.9]
    passes over the entry of [10.0.0.42] and stops at the next. *)
Lemma knownWorking_stops_witness :
  let pre := [("42", OnDisk.mk (Some (OnDisk.mkData "10.0.0.42" Demo.specs5)) None)] in
  let v := OnDisk.mk (Some (OnDisk.mkData "10.0.0.9" Demo.specs9))
                     (Some ["Netflix"]) in
  Forall (passedOver "10.0.0.9") pre
  /\ knownWorking (pre ++ [("SN-9", v)]) "10.0.0.9" = Returned Demo.cached9.
Proof.
  intros pre v.
  assert (H : Forall (passedOver "10.0.0.9") pre).
  { constructor; [|constructor]. split; [discriminate|reflexivity]. }
  split; [exact H|].
  destruct (@knownWorking_stops_at_first_match pre "SN-9" v [] "10.0.0.9" H)
    as [Hfound _].
  apply (Hfound (OnDisk.mkData "10.0.0.9" Demo.specs9)); reflexivity.
Defined.

(** Witness of X12: [10.0.0.9] is off; it is set up from the store. *)
Lemma setup_from_cache_alone_witness :
  let w1 := Demo.called (world Demo.seasoned) in
  let w2 := Demo.called w1 in
  deviceSetupPreFlight Demo.declared9 = value tt
  /\ livenessProbe Demo.network "10.0.0.9" (world Demo.seasoned) = (false, w1)
  /\ knownWorking (stored Demo.seasoned) "10.0.0.9" = Returned Demo.cached9
  /\ JSObject.get "SN-9" (stored Demo.seasoned) <> None
  /\ exists tr v,
       exec Demo.network (deviceSetup Demo.declared9) Demo.seasoned
       = (tr, Returned (value v), mkSys w2 Demo.cache)
       /\ displayName (accessory v) = Some "Viera 9"
       /\ vapps v = []
       /\ count is_network_call tr = 2.
Proof.
  intros w1 w2.
  do 3 (split; [reflexivity|]). split; [discriminate|].
  destruct (@setup_from_cache_alone
              _ Demo.network Demo.helpers Demo.declared9 Demo.seasoned
              w1 Demo.cached9 VieraSpecs.empty w2)
    as [Hrun Hcount]; try reflexivity; try discriminate.
  eexists _, _. split; [exact Hrun|].
  split; [reflexivity|]. split; [reflexivity|exact Hcount].
Defined.

(** Witness of X13: credentials declared for [10.0.0.5], which asks for
    none. *)
Lemma credentials_unused_witness :
  let '(tr1, _, s1) :=
    exec Demo.network (resolveSpecs Demo.declared5keyed) Demo.fresh in
  deviceSetupPreFlight Demo.declared5keyed = value tt
  /\ UserConfig.encKey Demo.declared5keyed = Some "key-5"
  /\ VieraSpecs.requiresEncryption (VieraTV.specs Demo.tv5) <> Some true
  /\ exec Demo.network (deviceSetup Demo.declared5keyed) Demo.fresh
     = after (hello Demo.declared5keyed :: tr1)
             (exec Demo.network (finishSetup Demo.declared5keyed Demo.tv5) s1)
  /\ let '(tr, _, _) :=
       exec Demo.network (deviceSetup Demo.declared5keyed) Demo.fresh in
     Forall (fun e => is_negotiation (command e) = false) tr.
Proof.
  destruct (exec Demo.network (resolveSpecs Demo.declared5keyed) Demo.fresh)
    as [[tr1 r1] s1] eqn:E.
  do 2 (split; [reflexivity|]). split; [discriminate|].
  apply (@credentials_unused_without_encryption
           _ Demo.network Demo.helpers Demo.declared5keyed Demo.fresh
           tr1 Demo.tv5 s1).
  - reflexivity.
  - vm_compute in E. injection E as <- <- <-. vm_compute. reflexivity.
  - discriminate.
Defined.

(** Witness of X14: [10.0.0.8] turns the handshake down. *)
Lemma refused_handshake_witness :
  let tv1 := VieraTV.setSpecs (mkObj None Demo.specs8)
                              (VieraTV.new "10.0.0.8" None) in
  let '(tr1, _, s1) := exec Demo.network (resolveSpecs Demo.declared8) Demo.refused in
  requestSessionId Demo.network Demo.tv8
    (deriveSessionKey Demo.network Demo.tv8 "key-8" (world s1))
  = (error "401 Unauthorized", Demo.called (world s1))
  /\ exec Demo.network (deviceSetup Demo.declared8) Demo.refused
     = (hello Demo.declared8 :: tr1
          ++ [EvDeriveSessionKey Demo.tv8 "key-8";
              EvRequestSessionId Demo.tv8 (error "401 Unauthorized")],
        Returned (error (msgBadCredentials "10.0.0.8" Demo.tv8 "401 Unauthorized")),
        mkSys (Demo.called (world s1)) []).
Proof.
  intros tv1.
  destruct (exec Demo.network (resolveSpecs Demo.declared8) Demo.refused)
    as [[tr1 r1] s1] eqn:E.
  assert (E' : exec Demo.network (resolveSpecs Demo.declared8) Demo.refused
               = (tr1, Returned (value tv1), s1))
    by (vm_compute in E; injection E as <- <- <-; vm_compute; reflexivity).
  assert (Hreq : requestSessionId Demo.network Demo.tv8
                   (deriveSessionKey Demo.network Demo.tv8 "key-8" (world s1))
                 = (error "401 Unauthorized", Demo.called (world s1)))
    by (vm_compute in E; injection E as _ _ <-; reflexivity).
  split; [exact Hreq|].
  destruct (@refused_handshake_ends_setup
              _ Demo.network Demo.helpers Demo.declared8 Demo.refused
              tr1 tv1 s1 "app-8" "key-8" "401 Unauthorized"
              (Demo.called (world s1)) eq_refl E' eq_refl eq_refl eq_refl Hreq)
    as [Hrun _].
  exact Hrun.
Defined.

(** Witness of X16: the first start, [10.0.0.9] off. *)
Lemma unreadable_cache_witness :
  let w := Demo.mkWorld Demo.home 0 in
  (∅ : Disk.t) !! path_join (cachedAccessoryPath Demo.api) "vieramatic.json" = None
  /\ deviceSetupPreFlight Demo.declared9 = value tt
  /\ livenessProbe Demo.network "10.0.0.9" w = (false, Demo.called w)
  /\ exec Demo.network (deviceSetup Demo.declared9) (booted Demo.api ∅ w)
     = ([hello Demo.declared9; EvLivenessProbe "10.0.0.9" false;
         EvReadAccessories []; EvReadAccessories [];
         EvLog LvlError (logUnreachable VieraSpecs.empty false [])],
        Returned (error (msgUnreachable "10.0.0.9")),
        mkSys (Demo.called w) []).
Proof.
  intros w.
  assert (H : (∅ : Disk.t) !! path_join (cachedAccessoryPath Demo.api)
                                         "vieramatic.json" = None)
    by reflexivity.
  split; [exact H|].
  do 2 (split; [reflexivity|]).
  destruct (@unreadable_cache_means_never_seen
              _ Demo.network Demo.helpers Demo.api ∅ w (Demo.called w)
              Demo.declared9 (or_introl H))
    as (_ & _ & Hrun).
  apply Hrun; reflexivity.
Defined.

(** Witness of X17: the second task of the example cycle, stopped after
    any number of turns. *)
Lemma discovery_bounds_witness :
  tvs Demo.platform !! 1 = Some Demo.declared5
  /\ forall n,
       let '(_, P) := discoverDevices Demo.network Demo.platform Demo.fresh
                                      (firstn n Demo.alternating) in
       length (eventsOf 1 (journal P)) <= taskBudget
       /\ count is_network_call (eventsOf 1 (journal P)) <= 5
       /\ count is_publish (eventsOf 1 (journal P)) <= 1
       /\ count is_store_write (eventsOf 1 (journal P)) <= 1.
Proof.
  assert (H1 : tvs Demo.platform !! 1 = Some Demo.declared5) by reflexivity.
  split; [exact H1|]. intros n.
  apply (@discovery_bounds_each_task
           _ Demo.network Demo.helpers Demo.platform Demo.fresh
           (firstn n Demo.alternating) 1 Demo.declared5 H1).
Defined.

(** Witness of X19: in the example cycle [10.0.0.5] is published, after
    its setup returned the accessory. *)
Lemma publish_only_after_success_witness :
  tvs Demo.platform !! 1 = Some Demo.declared5
  /\ let '(_, P) := discoverDevices Demo.network Demo.platform Demo.fresh
                                    Demo.alternating in
     In (EvPublish Demo.accessory5) (eventsOf 1 (journal P))
     /\ exists tr v rest,
          produces (deviceSetup Demo.declared5) tr (Returned (value v))
          /\ Demo.accessory5 = accessory v
          /\ eventsOf 1 (journal P) = tr ++ EvPublish Demo.accessory5 :: rest
          /\ (rest = [] \/ rest = [EvLog LvlInfo (logLoaded Demo.accessory5)]).
Proof.
  assert (H1 : tvs Demo.platform !! 1 = Some Demo.declared5) by reflexivity.
  split; [exact H1|].
  pose proof (@publish_only_after_success
                _ Demo.network Demo.helpers Demo.platform Demo.fresh
                Demo.alternating 1 Demo.declared5 Demo.accessory5 H1) as H.
  destruct (discoverDevices Demo.network Demo.platform Demo.fresh Demo.alternating)
    as [tr0 P] eqn:E.
  assert (Hin : In (EvPublish Demo.accessory5) (eventsOf 1 (journal P))).
  { vm_compute in E. injection E as _ <-. vm_compute.
    do 8 right. left. reflexivity. }
  split; [exact Hin|]. exact (H Hin).
Defined.

(** Witness of X2: the store of the example, asked for a key it does not
    have and for the name of an inherited member, saved and loaded
    again. *)
Lemma Storage_restart_witness :
  let e := gets ["SN-7"; "toString"] Demo.onDisk in
  Storage.filePath (Storage.this Demo.onDisk)
    = path_join (cachedAccessoryPath Demo.api) "vieramatic.json"
  /\ JSObject.wf (Storage.accessories (Storage.this Demo.onDisk))
  /\ JSObject.keys (Storage.accessories (Storage.this e)) = ["42"; "SN-9"; "SN-7"]
  /\ Storage.accessories
       (Storage.this (Storage.new Demo.api (Storage.disk (Storage.save e))))
     = Storage.accessories (Storage.this e).
Proof.
  intros e.
  assert (H1 : Storage.filePath (Storage.this Demo.onDisk)
               = path_join (cachedAccessoryPath Demo.api) "vieramatic.json")
    by reflexivity.
  assert (H2 : JSObject.wf (Storage.accessories (Storage.this Demo.onDisk)))
    by (apply JSObjectFacts.orderedb_sound; vm_compute; reflexivity).
  split; [exact H1|]. split; [exact H2|]. split; [reflexivity|].
  destruct (@Storage_restart_after_save
              Demo.api Demo.onDisk ["SN-7"; "toString"] H1 H2) as [H _].
  exact H.
Defined.

(** Witness of X9: nobody answers for [10.0.0.6], and the scan for it
    reaches the entry that was never filled in. *)
Lemma scan_exception_witness :
  let w1 := Demo.called (world Demo.unfinished) in
  let tr := [hello Demo.declared6; EvLivenessProbe "10.0.0.6" false;
             EvReadAccessories Demo.halfFilled] in
  deviceSetupPreFlight Demo.declared6 = value tt
  /\ livenessProbe Demo.network "10.0.0.6" (world Demo.unfinished) = (false, w1)
  /\ exists e,
       knownWorking Demo.halfFilled "10.0.0.6" = Thrown e
       /\ exec Demo.network (deviceSetup Demo.declared6) Demo.unfinished
          = (tr, Thrown e, mkSys w1 Demo.halfFilled)
       /\ exec Demo.network (setupAndPublish Demo.declared6) Demo.unfinished
          = (tr, Thrown e, mkSys w1 Demo.halfFilled).
Proof.
  intros w1 tr.
  do 2 (split; [reflexivity|]).
  eexists. split; [reflexivity|].
  apply (@scan_exception_escapes_setup
           _ Demo.network Demo.helpers Demo.declared6 Demo.unfinished
           false w1); reflexivity.
Defined.
